(** * Synthetic power-flow data sets: grid topology builder and perturbation sampler

    A shallow embedding of

    - [complete_grids/high_generation_injection_meshed_fictional_grid.py]
      ([add_ring_bus_from_to], [create_grid_topo]) and
    - [data_generation_solution_prediction.py]
      ([PowerFlowDataset]: [compute_residual], [generate_samples],
      [__getitem__]).

    Python integers are [Z]; Python lists are [list]; numpy float arrays are
    lists of real numbers and complex arrays lists of pairs of reals (exact
    arithmetic: rounding is not modelled).  Exceptions are an explicit
    result. *)

From Stdlib Require Import ZArith List Lia Reals Lra String.
From stdpp Require Import gmap strings list fin_maps pretty.

Local Open Scope Z_scope.

(** ** Python exceptions met in the two modules *)

Inductive exn : Type :=
| IndexError
| KeyError (key : string)
| LoadflowNotConverged
| DanglingReference.   (* model only: a reference that names no object *)

(** Outcome of code that touches no shared store. *)
Inductive outcome (A : Type) : Type :=
| Return (a : A)
| Raised (e : exn).
Arguments Return {A} a.
Arguments Raised {A} e.

Definition obind {A B} (x : outcome A) (k : A -> outcome B) : outcome B :=
  match x with
  | Return a => k a
  | Raised e => Raised e
  end.

Module PyList.

(** [list(range(lo, hi))]: empty when [hi <= lo]. *)
Definition range (lo hi : Z) : list Z :=
  List.map (fun i => lo + Z.of_nat i) (seq 0 (Z.to_nat (hi - lo))).

Definition len {A} (l : list A) : Z := Z.of_nat (length l).

(** [l[i]]: a negative index counts from the end; out of range raises. *)
Definition index {A} (l : list A) (i : Z) : outcome A :=
  let j := if i <? 0 then len l + i else i in
  if (j <? 0) || (len l <=? j) then Raised IndexError
  else match nth_error l (Z.to_nat j) with
       | Some x => Return x
       | None => Raised IndexError
       end.

(** Slice bound as Python clamps it: [None] is the given default, a
    negative bound counts from the end, and the result is kept inside
    [0 .. len]. *)
Definition clamp {A} (l : list A) (b : option Z) (dflt : Z) : nat :=
  match b with
  | None => Z.to_nat dflt
  | Some i =>
      let j := if i <? 0 then len l + i else i in
      Z.to_nat (Z.min (Z.max j 0) (len l))
  end.

(** [l[start:stop]] (step 1); never raises. *)
Definition slice {A} (l : list A) (start stop : option Z) : list A :=
  let a := clamp l start 0 in
  let b := clamp l stop (len l) in
  firstn (b - a) (skipn a l).

End PyList.

(** ** Grid topology ([high_generation_injection_meshed_fictional_grid.py]) *)

Module Topology.

(** The [grid_data] dictionary.  [create_grid_topo] is its only creator
    and always gives it these five keys, so it is a record here. *)
Record GridData : Type := mkGridData {
  id_end : Z;
  mv_bus : Z;
  line_from : list Z;
  line_to : list Z;
  buses : list Z
}.

(** The four kinds of update that the code makes to the dictionary. *)
Definition set_id_end (v : Z) (g : GridData) : GridData :=
  mkGridData v (mv_bus g) (line_from g) (line_to g) (buses g).
Definition extend_buses (l : list Z) (g : GridData) : GridData :=
  mkGridData (id_end g) (mv_bus g) (line_from g) (line_to g) (buses g ++ l).
Definition extend_line_from (l : list Z) (g : GridData) : GridData :=
  mkGridData (id_end g) (mv_bus g) (line_from g ++ l) (line_to g) (buses g).
Definition extend_line_to (l : list Z) (g : GridData) : GridData :=
  mkGridData (id_end g) (mv_bus g) (line_from g) (line_to g ++ l) (buses g).

(** [add_ring_bus_from_to(grid_data, n_ring_num, is_mesh=False)].  The
    dictionary is updated in place, statement by statement; each line
    below is one statement of the source.  The only statement that runs
    before the first fallible access is [grid_data["buses"] += buses],
    and the failing access [buses[-1]] fails exactly when [buses] is
    empty, so a raised exception leaves the dictionary as it was. *)
Definition add_ring_bus_from_to
    (grid_data : GridData) (n_ring_num : Z) (is_mesh : bool) : outcome GridData :=
  let id_end0 := id_end grid_data in
  let ring := PyList.range id_end0 (id_end0 + n_ring_num) in
  let grid_data := extend_buses ring grid_data in
  obind (PyList.index ring (-1)) (fun last_bus =>
  let grid_data := set_id_end (last_bus + 1) grid_data in
  obind (PyList.index ring 0) (fun first_bus =>
  let grid_data := extend_line_from [first_bus] grid_data in
  let grid_data := extend_line_to [mv_bus grid_data] grid_data in
  let grid_data := extend_line_from (PyList.slice ring None (Some (-1))) grid_data in
  let grid_data := extend_line_to (PyList.slice ring (Some 1) None) grid_data in
  if is_mesh then
    obind (PyList.index ring 0) (fun first_bus =>
    let grid_data := extend_line_from [first_bus] grid_data in
    obind (PyList.index ring (-1)) (fun last_bus =>
    let grid_data := extend_line_to [last_bus] grid_data in
    Return grid_data))
  else Return grid_data)).

(** [[x] * n]: empty for [n <= 0]. *)
Definition py_repeat {A} (x : A) (n : Z) : list A := repeat x (Z.to_nat n).

(** The [for ring, is_mesh in zip(...)] loop: the ring index is unused. *)
Fixpoint add_rings (grid_data : GridData) (n_ring_num : Z)
    (rings : list (Z * bool)) : outcome GridData :=
  match rings with
  | [] => Return grid_data
  | (_, is_mesh) :: rest =>
      obind (add_ring_bus_from_to grid_data n_ring_num is_mesh)
            (fun g => add_rings g n_ring_num rest)
  end.

(** Body of [create_grid_topo] with its three local constants as
    arguments. *)
Definition create_grid_topo_with (n_rings n_ring_num n_meshes : Z) : outcome GridData :=
  let is_mesh_list := py_repeat true n_meshes ++ py_repeat false (n_rings - n_meshes) in
  let grid_data := mkGridData 10 0 [] [] [] in
  add_rings grid_data n_ring_num (combine (PyList.range 0 n_rings) is_mesh_list).

(** [create_grid_topo()]: [n_rings = 2], [n_ring_num = 4], [n_meshes = 1]. *)
Definition create_grid_topo : outcome GridData := create_grid_topo_with 2 4 1.

(** Number of line entries of a topology. *)
Definition n_lines (g : GridData) : Z := PyList.len (line_from g).

(** Number of mesh-enabled rings among those built. *)
Definition n_mesh_rings (rings : list (Z * bool)) : Z :=
  PyList.len (List.filter snd rings).

(** What [add_ring_bus_from_to] leaves behind when it returns. *)
Definition ring_added (g : GridData) (n : Z) (is_mesh : bool) : GridData :=
  let ring := PyList.range (id_end g) (id_end g + n) in
  mkGridData (id_end g + n) (mv_bus g)
    (line_from g ++ [id_end g] ++ removelast ring
       ++ (if is_mesh then [id_end g] else []))
    (line_to g ++ [mv_bus g] ++ tl ring
       ++ (if is_mesh then [id_end g + n - 1] else []))
    (buses g ++ ring).

(** The rings that [create_grid_topo] builds: the pairs its loop runs
    over. *)
Definition built_rings (n_rings n_meshes : Z) : list (Z * bool) :=
  combine (PyList.range 0 n_rings)
          (py_repeat true n_meshes ++ py_repeat false (n_rings - n_meshes)).

(** Line count with [per_ring] lines for each ring and one more for each
    mesh-enabled ring. *)
Definition line_count (per_ring : Z) (rings : list (Z * bool)) : Z :=
  PyList.len rings * per_ring + n_mesh_rings rings.

(** Every allocated identifier lies below [id_end]. *)
Definition below_id_end (g : GridData) : Prop :=
  Forall (fun b => b < id_end g) (buses g).

(** [id_end - 1] is itself allocated, once anything is. *)
Definition id_end_tight (g : GridData) : Prop :=
  buses g <> [] -> In (id_end g - 1) (buses g).

End Topology.

(** ** The numpy operations used by [compute_residual]

    A float is a real number and a complex float a pair of reals.  The
    arrays of one operation are taken to have matching shapes (numpy
    broadcasts or raises [ValueError] otherwise). *)

Module Numpy.

Definition C : Type := (R * R)%type.

Definition RtoC (x : R) : C := (x, 0%R).
Definition C0 : C := RtoC 0.
Definition Ci : C := (0%R, 1%R).                              (* [1j] *)
Definition real (z : C) : R := fst z.
Definition imag (z : C) : R := snd z.
Definition Cadd (a b : C) : C := ((fst a + fst b)%R, (snd a + snd b)%R).
Definition Csub (a b : C) : C := ((fst a - fst b)%R, (snd a - snd b)%R).
Definition Cmul (a b : C) : C :=
  ((fst a * fst b - snd a * snd b)%R, (fst a * snd b + snd a * fst b)%R).
Definition conj (z : C) : C := (fst z, (- snd z)%R).
Definition Cexp (z : C) : C :=
  ((exp (fst z) * cos (snd z))%R, (exp (fst z) * sin (snd z))%R).

Definition deg2rad (x : R) : R := (x * (PI / 180))%R.

(** Elementwise operations on one-dimensional arrays. *)
Definition add (a b : list R) : list R := zip_with Rplus a b.
Definition sub (a b : list C) : list C := zip_with Csub a b.

(** Sum of the products of a row with a vector. *)
Definition dot (r x : list C) : C := fold_right Cadd C0 (zip_with Cmul r x).

(** [M @ x] for a two-dimensional [M] and a one-dimensional [x]. *)
Definition matmul (M : list (list C)) (x : list C) : list C :=
  List.map (fun r => dot r x) M.

(** [np.diag(v)] for a one-dimensional [v]: the square matrix with [v] on
    its diagonal and zero elsewhere. *)
Definition diag (v : list C) : list (list C) :=
  List.map (fun i =>
         List.map (fun j => if Nat.eqb i j then nth i v C0 else C0)
             (seq 0 (length v)))
      (seq 0 (length v)).

(** [A.flatten()] of a two-dimensional array, row by row. *)
Definition flatten {A} (M : list (list A)) : list A := concat M.

End Numpy.

(** ** Residual of the power-flow equations ([PowerFlowDataset.compute_residual]) *)

Module Residual.
Import Numpy.

(** [compute_residual(self, V_mag, V_ang, Ybus, S)]; [self] is unused. *)
Definition compute_residual
    (V_mag V_ang : list R) (Ybus : list (list C)) (S : list C) : list C :=
  let V_ang := List.map deg2rad V_ang in
  let complex_v :=
    zip_with (fun m a => Cmul (RtoC m) (Cexp (Cmul (RtoC a) Ci))) V_mag V_ang in
  let current := matmul Ybus complex_v in
  let diag_V := diag complex_v in
  let residual := sub (matmul diag_V (List.map conj current)) S in
  PyList.slice residual (Some 1) None.

(** The complex voltage vector that the code forms ([complex_v]). *)
Definition complex_v (V_mag V_ang : list R) : list C :=
  zip_with (fun m a => Cmul (RtoC m) (Cexp (Cmul (RtoC a) Ci)))
           V_mag (List.map deg2rad V_ang).

(** The mismatch as the specification words it, bus by bus. *)

(** Complex voltage of bus [j]: magnitude times [exp(i * angle)], the angle
    converted from degrees. *)
Definition voltage (V_mag V_ang : list R) (j : nat) : C :=
  Cmul (RtoC (nth j V_mag 0%R))
       (Cexp (Cmul Ci (RtoC (deg2rad (nth j V_ang 0%R))))).

Definition Csum (l : list C) : C := fold_right Cadd C0 l.

(** Current injected at bus [k]: row [k] of the admittance matrix applied
    to the voltage vector. *)
Definition current_at (V_mag V_ang : list R) (Ybus : list (list C)) (k : nat) : C :=
  Csum (List.map (fun j => Cmul (nth j (nth k Ybus []) C0) (voltage V_mag V_ang j))
            (seq 0 (length V_mag))).

(** Mismatch at bus [k]: voltage times conjugated current, minus the
    specified injection. *)
Definition mismatch_at (V_mag V_ang : list R) (Ybus : list (list C)) (S : list C)
    (k : nat) : C :=
  Csub (Cmul (voltage V_mag V_ang k) (conj (current_at V_mag V_ang Ybus k)))
       (nth k S C0).

(** The mismatch of every bus but the reference bus (index 0). *)
Definition mismatch_spec (V_mag V_ang : list R) (Ybus : list (list C)) (S : list C)
    : list C :=
  List.map (mismatch_at V_mag V_ang Ybus S) (seq 1 (length V_mag - 1)).

(** Inputs of [n] buses: two vectors of length [n], an [n] by [n] matrix
    and an injection vector of length [n]. *)
Definition well_shaped (n : nat) (V_mag V_ang : list R) (Ybus : list (list C))
    (S : list C) : Prop :=
  length V_mag = n /\ length V_ang = n /\ length S = n /\
  length Ybus = n /\ Forall (fun row => length row = n) Ybus.

End Residual.

(** ** The perturbation sampler ([PowerFlowDataset]) *)

Module Sampler.
Import Numpy Residual.

(** Keyword arguments of [pp.runpp]; [None] is an argument left at
    pandapower's default. *)
Record runpp_options : Type := mkOptions {
  init : option string;
  init_vm_pu : option (list R);
  init_va_degree : option (list R);
  max_iteration : option Z;
  tolerance_mva : option R
}.

(** pandapower, the external solver.  [runpp] works on a network object in
    place: [pp_runpp opts net] is the object after the call, paired with
    whether the load flow converged ([false]: the call raises
    [LoadflowNotConverged]).  The other fields are the attributes the
    sampler reads from a solved network. *)
Class PandaPower : Type := {
  Net : Type;
  pp_runpp : runpp_options -> Net -> Net * bool;
  res_bus_vm_pu : Net -> list R;          (* [net.res_bus.vm_pu.values] *)
  res_bus_va_degree : Net -> list R;      (* [net.res_bus.va_degree.values] *)
  ppc_iterations : Net -> Z;              (* [net._ppc["iterations"]] *)
  ppc_et : Net -> R;                      (* [net._ppc["et"]] *)
  ppc_Ybus : Net -> list (list C);        (* [net._ppc["internal"]["Ybus"].toarray()] *)
  ppc_Sbus : Net -> list C                (* [net._ppc["internal"]["Sbus"]] *)
}.

(** numpy's global random generator, as an input: [random_draw c low high k]
    is entry [k] of the array returned by the [c]-th call of
    [np.random.uniform], made with bounds [low] and [high]. *)
Class NumpyRandom : Type := {
  random_draw : nat -> R -> R -> nat -> R
}.

(** The documented range of [np.random.uniform(low, high)]. *)
Definition draws_in_range `{NumpyRandom} : Prop :=
  forall c low high k, (low <= high)%R ->
    (low <= random_draw c low high k <= high)%R.

(** Values held by a sample record. *)
Inductive value : Type :=
| VArray (a : list R)
| VInt (n : Z).

(** A Python dictionary with string keys.  In a literal a later entry
    replaces an earlier one with the same key. *)
Definition py_dict (items : list (string * value)) : gmap string value :=
  fold_left (fun d kv => <[fst kv := snd kv]> d) items ∅.

(** [d[k]] *)
Definition dict_get (d : gmap string value) (k : string) : outcome value :=
  match d !! k with
  | Some v => Return v
  | None => Raised (KeyError k)
  end.

(** References to network objects. *)
Abbreviation ref := positive.

(** The fields of a [PowerFlowDataset] object that the code reads or
    writes (the two unused [StandardScaler] fields are left out).
    [base_net] is a reference into the store. *)
Record PowerFlowDataset : Type := mkDataset {
  base_net : ref;
  num_samples : Z;
  samples : list (gmap string value);
  ds_max_iteration : Z;
  ds_tolerance_mva : R;
  v_perturb : R;
  theta_perturb : R
}.

Definition append_sample (self : PowerFlowDataset) (s : gmap string value)
    : PowerFlowDataset :=
  mkDataset (base_net self) (num_samples self) (samples self ++ [s])
    (ds_max_iteration self) (ds_tolerance_mva self)
    (v_perturb self) (theta_perturb self).

(** Two states of a dataset object that differ at most in [samples]. *)
Definition same_config (a b : PowerFlowDataset) : Prop :=
  base_net a = base_net b /\ num_samples a = num_samples b /\
  ds_max_iteration a = ds_max_iteration b /\
  ds_tolerance_mva a = ds_tolerance_mva b /\
  v_perturb a = v_perturb b /\ theta_perturb a = theta_perturb b.

Section WithSolver.
Context `{PP : PandaPower} `{RNG : NumpyRandom}.

(** Everything outside the dataset object that the sampler touches:
    the network objects, the random generator (number of calls made),
    the standard output and the file system.  [solver_calls] is a
    trace: the reference and the options of every [pp.runpp] call, in
    order. *)
Record world : Type := mkWorld {
  nets : gmap ref Net;
  rng_calls : nat;
  solver_calls : list (ref * runpp_options);
  stdout : list string;
  files : gmap string (list (gmap string value))
}.

(** State and exception monad over the world. *)
Inductive result (A : Type) : Type :=
| Ok (a : A) (w : world)
| Raise (e : exn) (w : world).
Arguments Ok {A} a w.
Arguments Raise {A} e w.

Definition M (A : Type) : Type := world -> result A.

Definition ret {A} (a : A) : M A := fun w => Ok a w.

Definition bind {A B} (m : M A) (k : A -> M B) : M B :=
  fun w => match m w with
           | Ok a w' => k a w'
           | Raise e w' => Raise e w'
           end.

(** [try: body  except LoadflowNotConverged: handler]; any other
    exception propagates. *)
Definition try_except_not_converged {A} (body handler : M A) : M A :=
  fun w => match body w with
           | Ok a w' => Ok a w'
           | Raise LoadflowNotConverged w' => handler w'
           | Raise e w' => Raise e w'
           end.

Local Notation "x <- m ;; k" := (bind m (fun x => k))
  (at level 100, m at next level, right associativity).
Local Notation "m ;;; k" := (bind m (fun _ => k))
  (at level 100, right associativity).

(** [net.deepcopy()]: a new object with the same content. *)
Definition deepcopy (l : ref) : M ref :=
  fun w => match nets w !! l with
           | Some n =>
               let l' := fresh (dom (nets w)) in
               Ok l' (mkWorld (<[l' := n]> (nets w)) (rng_calls w)
                        (solver_calls w) (stdout w) (files w))
           | None => Raise DanglingReference w
           end.

(** Reading the object behind a reference. *)
Definition read_net (l : ref) : M Net :=
  fun w => match nets w !! l with
           | Some n => Ok n w
           | None => Raise DanglingReference w
           end.

(** [pp.runpp(net, **opts)]: solves in place. *)
Definition runpp (l : ref) (opts : runpp_options) : M unit :=
  fun w => match nets w !! l with
           | Some n =>
               let (n', converged) := pp_runpp opts n in
               let w' := mkWorld (<[l := n']> (nets w)) (rng_calls w)
                           (solver_calls w ++ [(l, opts)]) (stdout w) (files w) in
               if converged then Ok tt w' else Raise LoadflowNotConverged w'
           | None => Raise DanglingReference w
           end.

(** [np.random.uniform(low, high, size)] *)
Definition np_random_uniform (low high : R) (size : nat) : M (list R) :=
  fun w => Ok (List.map (random_draw (rng_calls w) low high) (seq 0 size))
              (mkWorld (nets w) (S (rng_calls w)) (solver_calls w)
                 (stdout w) (files w)).

(** [print(line)] *)
Definition print (line : string) : M unit :=
  fun w => Ok tt (mkWorld (nets w) (rng_calls w) (solver_calls w)
                    (stdout w ++ [line]) (files w)).

(** [with open(name, "wb") as f: pickle.dump(data, f)]; the file system
    is taken to be writable. *)
Definition pickle_dump (name : string) (data : list (gmap string value)) : M unit :=
  fun w => Ok tt (mkWorld (nets w) (rng_calls w) (solver_calls w)
                    (stdout w) (<[name := data]> (files w))).

(** [for x in l: self = body(x, self)] *)
Fixpoint for_each {A S : Type} (l : list A) (body : A -> S -> M S) (s : S) : M S :=
  match l with
  | [] => ret s
  | x :: rest => s' <- body x s ;; for_each rest body s'
  end.

(** Options of the base-case solve: [pp.runpp(net, max_iteration=100)]. *)
Definition base_options : runpp_options :=
  mkOptions None None None (Some 100) None.

(** Options of a perturbed solve. *)
Definition ill_options (self : PowerFlowDataset) (v_ill theta_ill : list R)
    : runpp_options :=
  mkOptions (Some "auto"%string) (Some v_ill) (Some theta_ill)
    (Some (ds_max_iteration self)) (Some (ds_tolerance_mva self)).

(** The diagnostic of a draw that did not converge. *)
Definition not_converged_message (i : Z) : string :=
  ("Sample " +:+ pretty i +:+ ": Ill-conditioned case did not converge!")%string.

(** Body of the sampling loop for draw [i].  [net] is the solved base
    case, [v_nominal] and [theta_nominal] its solution.  The dataset
    object is passed in and out: [self.samples.append] is the last
    statement of the [try] block and cannot fail, so an exception
    always finds the object as it was when the draw began. *)
Definition sample_draw (net : ref) (v_nominal theta_nominal : list R)
    (i : Z) (self : PowerFlowDataset) : M PowerFlowDataset :=
  net_ill <- deepcopy (base_net self) ;;
  dv <- np_random_uniform (- v_perturb self) (v_perturb self) (length v_nominal) ;;
  let v_ill := add v_nominal dv in
  dtheta <- np_random_uniform (- theta_perturb self) (theta_perturb self)
              (length theta_nominal) ;;
  let theta_ill := add theta_nominal dtheta in
  try_except_not_converged
    (runpp net_ill (ill_options self v_ill theta_ill) ;;;
     solved <- read_net net_ill ;;
     let iterations := ppc_iterations solved in
     let Ybus := ppc_Ybus solved in
     let S := ppc_Sbus solved in
     base <- read_net net ;;
     let it := ppc_iterations base in
     let et := ppc_et base in
     let V_mag := res_bus_vm_pu solved in
     let V_ang := res_bus_va_degree solved in
     let resd := compute_residual V_mag V_ang Ybus S in
     ret (append_sample self
            (py_dict [("P", VArray (List.map real S));
                      ("Q", VArray (List.map imag S));
                      ("G", VArray (flatten (List.map (List.map real) Ybus)));
                      ("B", VArray (flatten (List.map (List.map imag) Ybus)));
                      ("V_init", VArray v_ill);
                      ("theta_init", VArray theta_ill);
                      ("iterations", VInt it);
                      ("V_pred", VArray V_mag);
                      ("Phi_pred", VArray V_ang);
                      ("resd_real", VArray (List.map real resd));
                      ("resd_imag", VArray (List.map imag resd))]%string)))
    (print (not_converged_message i) ;;; ret self).

(** [generate_samples(self)] *)
Definition generate_samples (self : PowerFlowDataset) : M PowerFlowDataset :=
  net <- deepcopy (base_net self) ;;
  base_converged <- try_except_not_converged
                      (runpp net base_options ;;; ret true) (ret false) ;;
  if negb base_converged then ret self
  else
    solved <- read_net net ;;
    let v_nominal := res_bus_vm_pu solved in
    let theta_nominal := res_bus_va_degree solved in
    self' <- for_each (PyList.range 0 (num_samples self))
               (sample_draw net v_nominal theta_nominal) self ;;
    pickle_dump "data.pkl" (samples self') ;;;
    ret self'.

(** [PowerFlowDataset(base_network, num_samples, max_iteration,
    tolerance_mva, v_perturb, theta_perturb)] *)
Definition PowerFlowDataset_init (base_network : ref) (num_samples max_iteration : Z)
    (tolerance_mva v_perturb theta_perturb : R) : M PowerFlowDataset :=
  base <- deepcopy base_network ;;
  generate_samples
    (mkDataset base num_samples [] max_iteration tolerance_mva v_perturb theta_perturb).

(** *** The sampling loop, draw by draw

    The definitions below describe a run of the loop without the store;
    the theorems relate [sample_draw] and [generate_samples] to them. *)

(** Initial guess of the draw that starts when the generator has been
    called [c] times. *)
Definition v_ill_of (self : PowerFlowDataset) (v_nominal : list R) (c : nat) : list R :=
  add v_nominal
      (List.map (random_draw c (- v_perturb self) (v_perturb self))
                (seq 0 (length v_nominal))).

Definition theta_ill_of (self : PowerFlowDataset) (theta_nominal : list R) (c : nat)
    : list R :=
  add theta_nominal
      (List.map (random_draw (S c) (- theta_perturb self) (theta_perturb self))
                (seq 0 (length theta_nominal))).

Definition draw_options (self : PowerFlowDataset) (v_nominal theta_nominal : list R)
    (c : nat) : runpp_options :=
  ill_options self (v_ill_of self v_nominal c) (theta_ill_of self theta_nominal c).

(** The record of a converged draw: [base] is the solved base case,
    [solved] the solved perturbed case. *)
Definition sample_record (base solved : Net) (v_ill theta_ill : list R)
    : gmap string value :=
  let resd := compute_residual (res_bus_vm_pu solved) (res_bus_va_degree solved)
                (ppc_Ybus solved) (ppc_Sbus solved) in
  py_dict [("P", VArray (List.map real (ppc_Sbus solved)));
           ("Q", VArray (List.map imag (ppc_Sbus solved)));
           ("G", VArray (flatten (List.map (List.map real) (ppc_Ybus solved))));
           ("B", VArray (flatten (List.map (List.map imag) (ppc_Ybus solved))));
           ("V_init", VArray v_ill);
           ("theta_init", VArray theta_ill);
           ("iterations", VInt (ppc_iterations base));
           ("V_pred", VArray (res_bus_vm_pu solved));
           ("Phi_pred", VArray (res_bus_va_degree solved));
           ("resd_real", VArray (List.map real resd));
           ("resd_imag", VArray (List.map imag resd))]%string.

(** Records retained by the draws [l], the first of which starts at
    generator call [c]; [net0] is the unsolved base network and [base]
    the solved base case. *)
Fixpoint retained (self : PowerFlowDataset) (net0 base : Net)
    (v_nominal theta_nominal : list R) (c : nat) (l : list Z)
    : list (gmap string value) :=
  match l with
  | [] => []
  | _ :: rest =>
      let o := draw_options self v_nominal theta_nominal c in
      (if snd (pp_runpp o net0)
       then [sample_record base (fst (pp_runpp o net0))
               (v_ill_of self v_nominal c) (theta_ill_of self theta_nominal c)]
       else [])
      ++ retained self net0 base v_nominal theta_nominal (S (S c)) rest
  end.

(** Diagnostics printed by the draws [l]: one per discarded draw. *)
Fixpoint diagnostics (self : PowerFlowDataset) (net0 : Net)
    (v_nominal theta_nominal : list R) (c : nat) (l : list Z) : list string :=
  match l with
  | [] => []
  | i :: rest =>
      let o := draw_options self v_nominal theta_nominal c in
      (if snd (pp_runpp o net0) then [] else [not_converged_message i])
      ++ diagnostics self net0 v_nominal theta_nominal (S (S c)) rest
  end.

(** Options of the solver calls made by the draws [l], one per draw. *)
Fixpoint draw_calls (self : PowerFlowDataset)
    (v_nominal theta_nominal : list R) (c : nat) (l : list Z) : list runpp_options :=
  match l with
  | [] => []
  | _ :: rest =>
      draw_options self v_nominal theta_nominal c
      :: draw_calls self v_nominal theta_nominal (S (S c)) rest
  end.

(** A vector within [radius] of [nominal], entry by entry. *)
Definition within (radius : R) (nominal v : list R) : Prop :=
  length v = length nominal /\
  forall k : nat, (k < length nominal)%nat ->
    (nth k nominal 0 - radius <= nth k v 0 <= nth k nominal 0 + radius)%R.

(** The initial guess that a solver call was given lies within the two
    perturbation radii of the nominal solution. *)
Definition guess_within (self : PowerFlowDataset) (v_nominal theta_nominal : list R)
    (o : runpp_options) : Prop :=
  exists v_ill theta_ill,
    init_vm_pu o = Some v_ill /\ init_va_degree o = Some theta_ill /\
    within (v_perturb self) v_nominal v_ill /\
    within (theta_perturb self) theta_nominal theta_ill.

(** What a record holds that was made from the solved base case [base]
    and a converged perturbed solve of the network [net0]: the
    iteration count of the base case, the initial guess that the
    perturbed solve was given, its solution, and the residual at that
    solution. *)
Definition recorded (net0 base : Net) (rec : gmap string value) : Prop :=
  rec !! "iterations"%string = Some (VInt (ppc_iterations base)) /\
  exists o solved v_ill theta_ill,
    pp_runpp o net0 = (solved, true) /\
    init_vm_pu o = Some v_ill /\ init_va_degree o = Some theta_ill /\
    rec !! "V_init"%string = Some (VArray v_ill) /\
    rec !! "theta_init"%string = Some (VArray theta_ill) /\
    rec !! "V_pred"%string = Some (VArray (res_bus_vm_pu solved)) /\
    rec !! "Phi_pred"%string = Some (VArray (res_bus_va_degree solved)) /\
    rec !! "resd_real"%string
      = Some (VArray (List.map real
                (compute_residual (res_bus_vm_pu solved) (res_bus_va_degree solved)
                   (ppc_Ybus solved) (ppc_Sbus solved)))) /\
    rec !! "resd_imag"%string
      = Some (VArray (List.map imag
                (compute_residual (res_bus_vm_pu solved) (res_bus_va_degree solved)
                   (ppc_Ybus solved) (ppc_Sbus solved)))).

(** The world in which a computation ends, returning or raising. *)
Definition world_of {A} (r : result A) : world :=
  match r with
  | Ok _ w => w
  | Raise _ w => w
  end.

(** The keys of a record appended by [generate_samples]. *)
Definition sample_keys : gset string :=
  list_to_set ["P"; "Q"; "G"; "B"; "V_init"; "theta_init"; "iterations";
               "V_pred"; "Phi_pred"; "resd_real"; "resd_imag"]%string.

(** [__len__] *)
Definition len (self : PowerFlowDataset) : Z := PyList.len (samples self).

End WithSolver.

Arguments Ok {PP A} a w.
Arguments Raise {PP A} e w.

(** torch, of which [__getitem__] uses one constructor. *)
Class Torch : Type := {
  Tensor : Type;
  FloatTensor : value -> Tensor
}.

(** [__getitem__(self, idx)]: the dictionary display evaluates its
    entries in order, ['input'] first; the dictionary returned, with the
    two keys ['input'] and ['output'], is the pair of its values. *)
Definition getitem `{Torch} (self : PowerFlowDataset) (idx : Z)
    : outcome (Tensor * Tensor) :=
  obind (PyList.index (samples self) idx) (fun sample =>
  obind (dict_get sample "input") (fun i =>
  obind (dict_get sample "output") (fun o =>
  Return (FloatTensor i, FloatTensor o)))).

End Sampler.

(** ** A two-bus stand-in for the external libraries

    A small instance of the interfaces above, on which the theorems are
    run: its solver always solves the base case in three iterations, and
    answers a perturbed start in seven iterations or not at all. *)

Module TwoBus.
Import Numpy Sampler.

Record net : Type := mkNet {
  vm_pu : list R;
  va_degree : list R;
  iterations : Z
}.

Definition Ybus : list (list C) :=
  [[RtoC 1; RtoC (-1)]; [RtoC (-1); RtoC 1]].

Definition Sbus : list C := [C0; C0].

(** [perturbed_converges]: the answer to every perturbed start. *)
Definition solve (perturbed_converges : bool) (o : runpp_options) (n : net)
    : net * bool :=
  match init_vm_pu o, init_va_degree o with
  | Some v, Some t => (mkNet v t 7, perturbed_converges)
  | _, _ => (mkNet [1%R; 1%R] [0%R; 0%R] 3, true)
  end.

Definition pandapower (perturbed_converges : bool) : PandaPower :=
  {| Net := net;
     pp_runpp := solve perturbed_converges;
     res_bus_vm_pu := vm_pu;
     res_bus_va_degree := va_degree;
     ppc_iterations := iterations;
     ppc_et := fun _ => 0%R;
     ppc_Ybus := fun _ => Ybus;
     ppc_Sbus := fun _ => Sbus |}.

(** A generator that always draws the lower bound. *)
Definition lowest : NumpyRandom := {| random_draw := fun _ low _ _ => low |}.

Definition torch : Torch := {| Tensor := value; FloatTensor := fun v => v |}.

(** The network handed to the constructor, before any solve. *)
Definition unsolved : net := mkNet [] [] 0.

Definition world0 (perturbed_converges : bool)
    : @world (pandapower perturbed_converges) :=
  @mkWorld (pandapower perturbed_converges) {[ 1%positive := unsolved ]} 0 [] [] ∅.

(** The base case as the solver leaves it. *)
Definition solved_base : net := mkNet [1%R; 1%R] [0%R; 0%R] 3.

(** The world inside the sampling loop: the base network at reference 1
    and the solved base case at reference 2. *)
Definition world1 (perturbed_converges : bool)
    : @world (pandapower perturbed_converges) :=
  @mkWorld (pandapower perturbed_converges)
    (<[ 2%positive := solved_base ]> {[ 1%positive := unsolved ]})
    0 [(2%positive, base_options)] [] ∅.

(** [PowerFlowDataset(net, num_samples=3, max_iteration=50,
    tolerance_mva=1e-5, v_perturb=0.15, theta_perturb=30)], before
    [generate_samples] runs. *)
Definition dataset0 : PowerFlowDataset :=
  mkDataset 1%positive 3 [] 50 (1 / 100000)%R (15 / 100)%R 30%R.

End TwoBus.

(** ** The lines of a topology, and what [create_pp_grid] hands to pandapower *)

Module GridLines.
Import Topology.

(** The lines as [pp.create_lines] pairs them: entry [k] of [line_from]
    with entry [k] of [line_to]. *)
Definition lines (g : GridData) : list (Z * Z) :=
  combine (line_from g) (line_to g).

(** The lines of one ring whose buses are [first, ..., first + n - 1]: the
    feeder from the first bus to the medium-voltage bus, the chain of
    consecutive buses, and the closing line of a mesh. *)
Definition ring_lines (first mv : Z) (n : Z) (is_mesh : bool) : list (Z * Z) :=
  (first, mv)
  :: List.map (fun b => (b, b + 1)) (PyList.range first (first + n - 1))
  ++ (if is_mesh then [(first, first + n - 1)] else []).

(** Every line starts at an allocated bus and ends at the medium-voltage
    bus or at an allocated bus. *)
Definition endpoints_known (g : GridData) : Prop :=
  Forall (fun b => In b (buses g)) (line_from g) /\
  Forall (fun b => b = mv_bus g \/ In b (buses g)) (line_to g).

(** Buses joined by a path of lines, a line being usable in both
    directions. *)
Inductive reach (ls : list (Z * Z)) : Z -> Z -> Prop :=
| reach_here (a : Z) : reach ls a a
| reach_line (a b c : Z) :
    In (a, b) ls \/ In (b, a) ls -> reach ls b c -> reach ls a c.

(** Every bus of the topology is joined to the medium-voltage bus. *)
Definition connected (g : GridData) : Prop :=
  forall b, In b (buses g) -> reach (lines g) b (mv_bus g).

(** The calls that [create_pp_grid] makes, with their arguments. *)
Inductive pp_call : Type :=
| create_empty_network
| create_bus (vn_kv : R) (index : Z)
| create_line_from_parameters (from_bus to_bus : Z)
    (length_km r_ohm_per_km x_ohm_per_km c_nf_per_km g_us_per_km max_i_ka : R)
| create_ext_grid (bus : Z) (vm_pu va_degree : R)
| create_buses (nr_buses : Z) (vn_kv : R) (index : list Z)
| create_lines (from_buses to_buses : list Z) (length_km : list R) (std_type : string)
| create_loads (load_buses : list Z) (p_mw : list R).

(** [create_pp_grid()], as the sequence of its pandapower calls; the three
    constants of [create_grid_topo] are arguments, as in
    [create_grid_topo_with].  What pandapower does with the calls is not
    modelled. *)
Definition create_pp_grid_with (n_rings n_ring_num n_meshes : Z) : outcome (list pp_call) :=
  obind (create_grid_topo_with n_rings n_ring_num n_meshes) (fun grid_data =>
  Return
    [create_empty_network;
     create_bus (4 / 10)%R 0;
     create_bus (4 / 10)%R 1;
     create_line_from_parameters 0 1 1%R (1 / 100)%R (1 / 100)%R (1 / 100)%R 0%R 100%R;
     create_ext_grid 0 1%R 0%R;
     create_buses (PyList.len (buses grid_data)) (4 / 10)%R (buses grid_data);
     create_lines (line_from grid_data) (line_to grid_data)
       (py_repeat 1%R (PyList.len (line_from grid_data))) "NAYY 4x150 SE";
     create_loads (buses grid_data)
       (py_repeat (1 / 1000)%R (PyList.len (buses grid_data)))]).

Definition create_pp_grid : outcome (list pp_call) := create_pp_grid_with 2 4 1.

End GridLines.

(** ** Flattening the records ([create_grid_dataset], the loop over
    [PF_data.samples]) *)

Module Flattening.
Import Sampler.

(** Outcome of flattening: the row, or the exception of the failing
    statement. *)
Inductive flat_result (A : Type) : Type :=
| Flat (a : A)
| FlatKeyError (key : string)
| FlatValueError.
Arguments Flat {A} a.
Arguments FlatKeyError {A} key.
Arguments FlatValueError {A}.

(** The keys of the list display handed to [np.concatenate], in order. *)
Definition concatenated_keys : list string :=
  ["P"; "Q"; "G"; "B"; "V_init"; "theta_init"; "V_pred"; "Phi_pred";
   "resd_real"; "resd_imag"]%string.

(** [[d[k] for k in keys]]: the first missing key raises [KeyError]. *)
Fixpoint get_all (d : gmap string value) (keys : list string) : string + list value :=
  match keys with
  | [] => inr []
  | k :: rest =>
      match d !! k with
      | None => inl k
      | Some v =>
          match get_all d rest with
          | inl k' => inl k'
          | inr vs => inr (v :: vs)
          end
      end
  end.

Fixpoint concat_arrays (arrays : list value) : option (list R) :=
  match arrays with
  | [] => Some []
  | VArray a :: rest => option_map (app a) (concat_arrays rest)
  | VInt _ :: _ => None
  end.

(** [np.concatenate(arrays)] of one-dimensional arrays; [None] is the
    [ValueError] raised for an empty list or a zero-dimensional entry. *)
Definition np_concatenate (arrays : list value) : option (list R) :=
  match arrays with
  | [] => None
  | _ => concat_arrays arrays
  end.

(** [np.append(X, Y)]: [Y] flattened and put after [X]; an integer becomes
    a float. *)
Definition np_append (X : list R) (Y : value) : list R :=
  X ++ match Y with
       | VArray a => a
       | VInt n => [IZR n]
       end.

(** Body of the loop, for one record [d]: the row appended to
    [flattened_data]. *)
Definition flatten_sample (d : gmap string value) : flat_result (list R) :=
  match get_all d concatenated_keys with
  | inl k => FlatKeyError k
  | inr arrays =>
      match np_concatenate arrays with
      | None => FlatValueError
      | Some X =>
          match d !! "iterations"%string with
          | None => FlatKeyError "iterations"
          | Some Y => Flat (np_append X Y)
          end
      end
  end.

(** [for d in PF_data.samples: ... flattened_data.append(np.append(X, Y))] *)
Fixpoint flatten_samples (samples : list (gmap string value))
    (flattened_data : list (list R)) : flat_result (list (list R)) :=
  match samples with
  | [] => Flat flattened_data
  | d :: rest =>
      match flatten_sample d with
      | Flat row => flatten_samples rest (flattened_data ++ [row])
      | FlatKeyError k => FlatKeyError k
      | FlatValueError => FlatValueError
      end
  end.

(** [row] is the record [d] laid out flat: its ten arrays one after the
    other, in the order of [concatenated_keys], then its iteration count. *)
Definition is_row_of (d : gmap string value) (row : list R) : Prop :=
  exists P Q G B V_init theta_init V_pred Phi_pred resd_real resd_imag it,
    d !! "P"%string = Some (VArray P) /\
    d !! "Q"%string = Some (VArray Q) /\
    d !! "G"%string = Some (VArray G) /\
    d !! "B"%string = Some (VArray B) /\
    d !! "V_init"%string = Some (VArray V_init) /\
    d !! "theta_init"%string = Some (VArray theta_init) /\
    d !! "V_pred"%string = Some (VArray V_pred) /\
    d !! "Phi_pred"%string = Some (VArray Phi_pred) /\
    d !! "resd_real"%string = Some (VArray resd_real) /\
    d !! "resd_imag"%string = Some (VArray resd_imag) /\
    d !! "iterations"%string = Some (VInt it) /\
    row = P ++ Q ++ G ++ B ++ V_init ++ theta_init ++ V_pred ++ Phi_pred
          ++ resd_real ++ resd_imag ++ [IZR it].

(** Number of columns of a row for a network of [n] buses. *)
Definition row_length (n : nat) : nat := (2 * n * n + 8 * n - 1)%nat.

Section WithSolver.
Context `{PP : PandaPower}.

(** The solver answers in the shapes of an [n]-bus network: whenever it
    converges from initial guesses of length [n] (or from none), the
    solution, the admittance matrix and the injection vector it leaves
    are those of [n] buses. *)
Definition solves_in_shape (n : nat) (net0 : Net) : Prop :=
  forall o solved,
    pp_runpp o net0 = (solved, true) ->
    (forall v, init_vm_pu o = Some v -> length v = n) ->
    (forall t, init_va_degree o = Some t -> length t = n) ->
    Residual.well_shaped n (res_bus_vm_pu solved) (res_bus_va_degree solved)
      (ppc_Ybus solved) (ppc_Sbus solved).

End WithSolver.

End Flattening.

(** ** Two more stand-ins: a solver that never converges, a dataset that
    asks for no sample *)

Module Stalled.
Import Numpy Sampler.

Definition pandapower : PandaPower :=
  {| Net := TwoBus.net;
     pp_runpp := fun _ n => (n, false);
     res_bus_vm_pu := TwoBus.vm_pu;
     res_bus_va_degree := TwoBus.va_degree;
     ppc_iterations := TwoBus.iterations;
     ppc_et := fun _ => 0%R;
     ppc_Ybus := fun _ => TwoBus.Ybus;
     ppc_Sbus := fun _ => TwoBus.Sbus |}.

Definition world0 : @world pandapower :=
  @mkWorld pandapower {[ 1%positive := TwoBus.unsolved ]} 0 [] [] ∅.

(** [TwoBus.dataset0] with [num_samples=0]. *)
Definition no_samples : PowerFlowDataset :=
  mkDataset 1%positive 0 [] 50 (1 / 100000)%R (15 / 100)%R 30%R.

End Stalled.

(** * Theorems *)

(** ** Python lists *)

Module PyListFacts.
Import PyList.

Lemma length_range lo hi : length (range lo hi) = Z.to_nat (hi - lo).
Proof. unfold range. now rewrite length_map, length_seq. Qed.

Lemma len_range lo hi : len (range lo hi) = Z.max 0 (hi - lo).
Proof. unfold len. rewrite length_range. lia. Qed.

Lemma range_empty lo hi : hi <= lo -> range lo hi = [].
Proof.
  intros H. unfold range. replace (Z.to_nat (hi - lo)) with 0%nat by lia.
  reflexivity.
Qed.

Lemma nth_error_range lo hi (k : nat) :
  (k < Z.to_nat (hi - lo))%nat -> nth_error (range lo hi) k = Some (lo + Z.of_nat k).
Proof.
  intros H. unfold range.
  rewrite nth_error_map, nth_error_seq.
  destruct (Nat.ltb_spec k (Z.to_nat (hi - lo))); [reflexivity | lia].
Qed.

Lemma In_range lo hi x : In x (range lo hi) <-> lo <= x < hi.
Proof.
  unfold range. rewrite in_map_iff. split.
  - intros (k & <- & Hk). apply in_seq in Hk. lia.
  - intros H. exists (Z.to_nat (x - lo)). split; [lia |].
    apply in_seq. lia.
Qed.

Lemma map_seq_from {A} (f : nat -> A) (a n : nat) :
  List.map f (seq a n) = List.map (fun i => f (a + i)%nat) (seq 0 n).
Proof.
  revert f a. induction n as [| n IH]; intros f a; [reflexivity |].
  simpl. rewrite Nat.add_0_r. f_equal.
  rewrite (IH f (S a)), (IH (fun i => f (a + i)%nat) 1%nat).
  apply map_ext. intros i. f_equal. lia.
Qed.

Lemma range_split lo mid hi :
  lo <= mid <= hi -> range lo hi = range lo mid ++ range mid hi.
Proof.
  intros H. unfold range.
  replace (Z.to_nat (hi - lo)) with (Z.to_nat (mid - lo) + Z.to_nat (hi - mid))%nat by lia.
  rewrite seq_app, map_app. f_equal.
  rewrite map_seq_from. apply map_ext. intros a. lia.
Qed.

Lemma range_cons lo hi : lo < hi -> range lo hi = lo :: range (lo + 1) hi.
Proof.
  intros H. rewrite (range_split lo (lo + 1) hi) by lia.
  unfold range at 1. replace (Z.to_nat (lo + 1 - lo)) with 1%nat by lia.
  simpl. f_equal. lia.
Qed.

Lemma range_snoc lo hi : lo < hi -> range lo hi = range lo (hi - 1) ++ [hi - 1].
Proof.
  intros H. rewrite (range_split lo (hi - 1) hi) by lia. f_equal.
  unfold range. replace (Z.to_nat (hi - (hi - 1))) with 1%nat by lia.
  simpl. f_equal. lia.
Qed.

Lemma NoDup_range lo hi : List.NoDup (range lo hi).
Proof.
  unfold range. generalize (Z.to_nat (hi - lo)) as n. generalize 0%nat as a.
  intros a n. revert a. induction n as [| n IH]; intros a; simpl.
  - constructor.
  - constructor; [| apply IH].
    rewrite in_map_iff. intros (k & Hk & Hin). apply in_seq in Hin. lia.
Qed.

(** An index inside the list reads the entry there. *)
Lemma index_nonneg {A} (l : list A) (i : Z) x :
  0 <= i -> nth_error l (Z.to_nat i) = Some x -> index l i = Return x.
Proof.
  intros Hi Hx. unfold index.
  assert (Z.to_nat i < length l)%nat by (apply nth_error_Some; congruence).
  destruct (Z.ltb_spec i 0); [lia |].
  destruct (Z.ltb_spec i 0); [lia |].
  destruct (Z.leb_spec (len l) i); [unfold len in *; lia |].
  simpl. now rewrite Hx.
Qed.

(** A negative index counts from the end. *)
Lemma index_negative {A} (l : list A) (i : Z) x :
  i < 0 -> 0 <= len l + i -> nth_error l (Z.to_nat (len l + i)) = Some x ->
  index l i = Return x.
Proof.
  intros Hi Hj Hx. unfold index.
  destruct (Z.ltb_spec i 0); [| lia].
  destruct (Z.ltb_spec (len l + i) 0); [lia |].
  destruct (Z.leb_spec (len l) (len l + i)); [lia |].
  simpl. now rewrite Hx.
Qed.

Lemma index_nil {A} (i : Z) : index (@nil A) i = Raised IndexError.
Proof.
  unfold index, len. simpl.
  destruct (i <? 0); simpl;
    repeat match goal with |- context [?a <? ?b] => destruct (Z.ltb_spec a b) end;
    repeat match goal with |- context [?a <=? ?b] => destruct (Z.leb_spec a b) end;
    simpl; try reflexivity; try lia;
    destruct (Z.to_nat _); reflexivity.
Qed.

(** When [l[i]] returns, [i] is a position of [l], counted from either end. *)
Lemma index_Return {A} (l : list A) (i : Z) x :
  index l i = Return x -> - len l <= i < len l.
Proof.
  unfold index. intros H.
  destruct (Z.ltb_spec i 0);
    repeat match type of H with context [?a <? ?b] => destruct (Z.ltb_spec a b) end;
    repeat match type of H with context [?a <=? ?b] => destruct (Z.leb_spec a b) end;
    simpl in H; try discriminate; unfold len in *; lia.
Qed.

(** When [l[i]] returns, it returns an entry of [l]. *)
Lemma index_In {A} (l : list A) (i : Z) x : index l i = Return x -> In x l.
Proof.
  unfold index. intros H.
  destruct (_ || _); [discriminate |].
  destruct (nth_error l _) eqn:E; [| discriminate].
  injection H as <-. eapply nth_error_In; eauto.
Qed.

(** A position of [l], counted from either end, is read without error. *)
Lemma index_in_range {A} (l : list A) (i : Z) :
  - len l <= i < len l -> exists x, index l i = Return x /\ In x l.
Proof.
  intros H.
  destruct (Z.ltb_spec i 0).
  - destruct (nth_error l (Z.to_nat (len l + i))) eqn:E.
    + exists a. split; [apply index_negative; auto; lia | eapply nth_error_In; eauto].
    + apply nth_error_None in E. unfold len in *. lia.
  - destruct (nth_error l (Z.to_nat i)) eqn:E.
    + exists a. split; [apply index_nonneg; auto | eapply nth_error_In; eauto].
    + apply nth_error_None in E. unfold len in *. lia.
Qed.

(** Any other index raises. *)
Lemma index_out_of_range {A} (l : list A) (i : Z) :
  ~ (- len l <= i < len l) -> index l i = Raised IndexError.
Proof.
  intros H. destruct (index l i) as [x | e] eqn:E.
  - apply index_Return in E. contradiction.
  - unfold index in E. destruct (_ || _); [congruence |].
    destruct (nth_error l _); congruence.
Qed.

Lemma slice_drop_last {A} (l : list A) : slice l None (Some (-1)) = removelast l.
Proof.
  unfold slice, clamp, len. simpl. rewrite Nat.sub_0_r.
  destruct l as [| a l] using rev_ind; [reflexivity |].
  rewrite removelast_last, length_app. simpl.
  replace (Z.to_nat _) with (length l) by lia.
  change (skipn (Z.to_nat 0) (l ++ [a])) with (l ++ [a]).
  now rewrite List.firstn_app, List.firstn_all, Nat.sub_diag, app_nil_r.
Qed.

Lemma slice_from_1 {A} (l : list A) : slice l (Some 1) None = tl l.
Proof.
  destruct l as [| a l]; [reflexivity |].
  unfold slice, clamp, len.
  change (1 <? 0) with false. cbv iota.
  replace (Z.to_nat (Z.min (Z.max 1 0) (Z.of_nat (length (a :: l))))) with 1%nat
    by (simpl length; lia).
  rewrite Nat2Z.id. simpl skipn.
  apply List.firstn_all2. simpl length. lia.
Qed.

End PyListFacts.

(** ** Grid topology *)

Module TopologyFacts.
Import PyList PyListFacts Topology.

Lemma grid_data_eq (a b : GridData) :
  id_end a = id_end b -> mv_bus a = mv_bus b ->
  line_from a = line_from b -> line_to a = line_to b -> buses a = buses b ->
  a = b.
Proof. destruct a, b. cbn. intros. subst. reflexivity. Qed.

Section Updates.
Variables (v : Z) (l : list Z) (g : GridData).

Lemma id_end_set_id_end : id_end (set_id_end v g) = v.
Proof. reflexivity. Qed.
Lemma mv_bus_set_id_end : mv_bus (set_id_end v g) = mv_bus g.
Proof. reflexivity. Qed.
Lemma line_from_set_id_end : line_from (set_id_end v g) = line_from g.
Proof. reflexivity. Qed.
Lemma line_to_set_id_end : line_to (set_id_end v g) = line_to g.
Proof. reflexivity. Qed.
Lemma buses_set_id_end : buses (set_id_end v g) = buses g.
Proof. reflexivity. Qed.

Lemma id_end_extend_buses : id_end (extend_buses l g) = id_end g.
Proof. reflexivity. Qed.
Lemma mv_bus_extend_buses : mv_bus (extend_buses l g) = mv_bus g.
Proof. reflexivity. Qed.
Lemma line_from_extend_buses : line_from (extend_buses l g) = line_from g.
Proof. reflexivity. Qed.
Lemma line_to_extend_buses : line_to (extend_buses l g) = line_to g.
Proof. reflexivity. Qed.
Lemma buses_extend_buses : buses (extend_buses l g) = buses g ++ l.
Proof. reflexivity. Qed.

Lemma id_end_extend_line_from : id_end (extend_line_from l g) = id_end g.
Proof. reflexivity. Qed.
Lemma mv_bus_extend_line_from : mv_bus (extend_line_from l g) = mv_bus g.
Proof. reflexivity. Qed.
Lemma line_from_extend_line_from :
  line_from (extend_line_from l g) = line_from g ++ l.
Proof. reflexivity. Qed.
Lemma line_to_extend_line_from : line_to (extend_line_from l g) = line_to g.
Proof. reflexivity. Qed.
Lemma buses_extend_line_from : buses (extend_line_from l g) = buses g.
Proof. reflexivity. Qed.

Lemma id_end_extend_line_to : id_end (extend_line_to l g) = id_end g.
Proof. reflexivity. Qed.
Lemma mv_bus_extend_line_to : mv_bus (extend_line_to l g) = mv_bus g.
Proof. reflexivity. Qed.
Lemma line_from_extend_line_to : line_from (extend_line_to l g) = line_from g.
Proof. reflexivity. Qed.
Lemma line_to_extend_line_to : line_to (extend_line_to l g) = line_to g ++ l.
Proof. reflexivity. Qed.
Lemma buses_extend_line_to : buses (extend_line_to l g) = buses g.
Proof. reflexivity. Qed.
End Updates.

Create Rewrite HintDb grid.
#[local] Hint Rewrite
  id_end_set_id_end mv_bus_set_id_end line_from_set_id_end line_to_set_id_end
  buses_set_id_end
  id_end_extend_buses mv_bus_extend_buses line_from_extend_buses
  line_to_extend_buses buses_extend_buses
  id_end_extend_line_from mv_bus_extend_line_from line_from_extend_line_from
  line_to_extend_line_from buses_extend_line_from
  id_end_extend_line_to mv_bus_extend_line_to line_from_extend_line_to
  line_to_extend_line_to buses_extend_line_to : grid.

Section Ring.
Variables (g : GridData) (n : Z) (is_mesh : bool).
Hypothesis n_pos : 1 <= n.

Lemma ring_first : index (range (id_end g) (id_end g + n)) 0 = Return (id_end g).
Proof.
  apply index_nonneg; [lia |].
  rewrite nth_error_range by lia. f_equal. simpl. lia.
Qed.

Lemma ring_last :
  index (range (id_end g) (id_end g + n)) (-1) = Return (id_end g + n - 1).
Proof.
  assert (Hlen : len (range (id_end g) (id_end g + n)) = n)
    by (rewrite len_range; lia).
  apply index_negative; [lia | lia |].
  rewrite Hlen, nth_error_range by lia. f_equal. lia.
Qed.

(** With at least one bus in the ring the function returns, and this is
    the dictionary it leaves. *)
Lemma add_ring_returns :
  add_ring_bus_from_to g n is_mesh = Return (ring_added g n is_mesh).
Proof.
  unfold add_ring_bus_from_to. cbv zeta.
  rewrite !ring_last, !ring_first. cbn [obind].
  rewrite slice_drop_last, slice_from_1.
  destruct is_mesh; cbn [obind]; f_equal; apply grid_data_eq;
    unfold ring_added; autorewrite with grid; cbn [id_end mv_bus line_from line_to buses];
    rewrite <- ?app_assoc, ?app_nil_r; try reflexivity; lia.
Qed.

End Ring.

(** Without a bus in the ring, [buses[-1]] raises. *)
Lemma add_ring_raises g n is_mesh :
  n <= 0 -> add_ring_bus_from_to g n is_mesh = Raised IndexError.
Proof.
  intros H. unfold add_ring_bus_from_to. cbv zeta.
  rewrite range_empty by lia. now rewrite index_nil.
Qed.

Lemma add_ring_Return g n is_mesh g' :
  add_ring_bus_from_to g n is_mesh = Return g' ->
  1 <= n /\ g' = ring_added g n is_mesh.
Proof.
  intros H. destruct (Z.le_gt_cases 1 n) as [Hn | Hn].
  - rewrite add_ring_returns in H by assumption. split; congruence.
  - rewrite add_ring_raises in H by lia. discriminate.
Qed.

Lemma length_removelast_range lo hi :
  lo < hi -> len (removelast (range lo hi)) = hi - lo - 1.
Proof.
  intros H. rewrite (range_snoc lo hi H), removelast_last.
  rewrite len_range. lia.
Qed.

Lemma length_tl_range lo hi : lo < hi -> len (tl (range lo hi)) = hi - lo - 1.
Proof.
  intros H. rewrite (range_cons lo hi H). cbn [tl]. rewrite len_range. lia.
Qed.

(** One ring adds its bus count in lines, and one more when meshed. *)
Lemma ring_added_lines g n is_mesh :
  1 <= n ->
  n_lines (ring_added g n is_mesh) = n_lines g + n + (if is_mesh then 1 else 0) /\
  len (line_to (ring_added g n is_mesh)) =
    len (line_to g) + n + (if is_mesh then 1 else 0).
Proof.
  intros Hn. unfold n_lines, ring_added. cbn [line_from line_to].
  pose proof (length_removelast_range (id_end g) (id_end g + n) ltac:(lia)) as H1.
  pose proof (length_tl_range (id_end g) (id_end g + n) ltac:(lia)) as H2.
  unfold len in *. rewrite !length_app. cbn [length].
  destruct is_mesh; cbn [length]; lia.
Qed.

Lemma n_mesh_rings_cons i is_mesh rest :
  n_mesh_rings ((i, is_mesh) :: rest) = (if is_mesh then 1 else 0) + n_mesh_rings rest.
Proof. unfold n_mesh_rings, len. destruct is_mesh; cbn [List.filter snd length]; lia. Qed.

(** The loop over the rings returns and adds [line_count n rings] lines. *)
Lemma add_rings_lines n rings :
  1 <= n -> forall g, exists g',
    add_rings g n rings = Return g' /\
    n_lines g' = n_lines g + line_count n rings /\
    len (line_to g') = len (line_to g) + line_count n rings.
Proof.
  intros Hn. induction rings as [| [i is_mesh] rest IH]; intros g.
  - exists g. unfold line_count, n_mesh_rings, len. cbn. repeat split; lia.
  - cbn [add_rings]. rewrite add_ring_returns by assumption. cbn [obind].
    destruct (IH (ring_added g n is_mesh)) as (g' & Hg' & Hfrom & Hto).
    exists g'. split; [assumption |].
    destruct (ring_added_lines g n is_mesh Hn) as [Ha Hb].
    unfold line_count in *. rewrite n_mesh_rings_cons.
    unfold len in *. cbn [length]. lia.
Qed.

(** Whenever the loop returns, it has added [line_count n rings] lines. *)
Lemma add_rings_Return n rings g g' :
  add_rings g n rings = Return g' ->
  n_lines g' = n_lines g + line_count n rings /\
  len (line_to g') = len (line_to g) + line_count n rings.
Proof.
  destruct rings as [| [i is_mesh] rest].
  - cbn [add_rings]. intros [= <-].
    unfold line_count, n_mesh_rings, len. cbn. lia.
  - intros H.
    assert (Hn : 1 <= n).
    { cbn [add_rings] in H.
      destruct (add_ring_bus_from_to g n is_mesh) as [g1 | e] eqn:E;
        [| discriminate].
      now apply add_ring_Return in E. }
    destruct (add_rings_lines n ((i, is_mesh) :: rest) Hn g) as (g2 & Hg2 & Hlines).
    rewrite Hg2 in H. injection H as <-. exact Hlines.
Qed.

End TopologyFacts.

Module TopologyClaims.
Import PyList PyListFacts Topology TopologyFacts.

Lemma filter_snd_all_false {A} (l : list A) b :
  List.filter snd (combine l (repeat false b)) = [].
Proof.
  revert l. induction b as [| b IH]; intros [| a l]; cbn; auto.
Qed.

Lemma length_filter_snd_meshes {A} (l : list A) a b :
  length (List.filter snd (combine l (repeat true a ++ repeat false b)))
  = Nat.min (length l) a.
Proof.
  revert l. induction a as [| a IH]; intros l.
  - cbn [repeat app]. rewrite filter_snd_all_false. cbn. lia.
  - destruct l as [| x l]; [reflexivity |].
    cbn [repeat app combine List.filter snd length]. now rewrite IH.
Qed.

(** The loop of [create_grid_topo] builds [n_rings] rings, the first
    [n_meshes] of them meshed. *)
Lemma built_rings_counts n_rings n_meshes :
  len (built_rings n_rings n_meshes) = Z.max 0 n_rings /\
  n_mesh_rings (built_rings n_rings n_meshes)
    = Z.min (Z.max 0 n_rings) (Z.max 0 n_meshes).
Proof.
  unfold built_rings, n_mesh_rings, len, py_repeat. split.
  - rewrite length_combine, length_range, length_app, !repeat_length. lia.
  - rewrite length_filter_snd_meshes, length_range. lia.
Qed.

(** C1, as stated, fails on the topology that [create_grid_topo] builds:
    two rings of four buses, one of them meshed, have nine lines, where
    bus count minus one per ring plus one closing line gives seven. *)
Lemma create_grid_topo_lines_counterexample :
  exists g, create_grid_topo = Return g /\
            n_lines g = 9 /\
            line_count (4 - 1) (built_rings 2 1) = 7 /\
            n_lines g <> line_count (4 - 1) (built_rings 2 1).
Proof. eexists. split_and!; [reflexivity | reflexivity | reflexivity | discriminate]. Qed.

(** C1, amended: every topology that [create_grid_topo] builds, for any
    ring count, bus count per ring and mesh count, has as many line entries
    as, per ring, the ring's bus count (the line from the ring's first bus
    to the medium-voltage bus and bus count minus one lines along the
    ring), plus one closing line per mesh-enabled ring; [line_from] and
    [line_to] have that same length.  With at least one bus per ring the
    topology is built. *)
Theorem create_grid_topo_lines n_rings n_ring_num n_meshes :
  (forall g,
     create_grid_topo_with n_rings n_ring_num n_meshes = Return g ->
     n_lines g = line_count n_ring_num (built_rings n_rings n_meshes) /\
     n_lines g = Z.max 0 n_rings * n_ring_num
                 + Z.min (Z.max 0 n_rings) (Z.max 0 n_meshes) /\
     len (line_to g) = n_lines g) /\
  (1 <= n_ring_num ->
   exists g, create_grid_topo_with n_rings n_ring_num n_meshes = Return g).
Proof.
  unfold create_grid_topo_with. fold (built_rings n_rings n_meshes). split.
  - intros g Hg. apply add_rings_Return in Hg as [Hfrom Hto].
    destruct (built_rings_counts n_rings n_meshes) as [Hlen Hmesh].
    unfold n_lines in *. cbn [line_from line_to] in *.
    change (len (@nil Z)) with 0 in *.
    split_and!; try lia.
    rewrite Hfrom. unfold line_count. rewrite Hlen, Hmesh. lia.
  - intros Hn.
    destruct (add_rings_lines n_ring_num (built_rings n_rings n_meshes) Hn
                (mkGridData 10 0 [] [] [])) as (g & Hg & _).
    exists g. exact Hg.
Qed.

Lemma create_grid_topo_lines_witness :
  n_lines (mkGridData 18 0 [10; 10; 11; 12; 10; 14; 14; 15; 16]
             [0; 11; 12; 13; 13; 0; 15; 16; 17] [10; 11; 12; 13; 14; 15; 16; 17])
  = Z.max 0 2 * 4 + Z.min (Z.max 0 2) (Z.max 0 1) /\
  exists g, create_grid_topo_with 2 4 1 = Return g.
Proof.
  destruct (create_grid_topo_lines 2 4 1) as [Hcount Hbuilt].
  split.
  - apply (Hcount _ eq_refl).
  - apply Hbuilt. lia.
Defined.

(** C9: [add_ring_bus_from_to] with [n_ring_num = 0] (or less) raises
    [IndexError] at [buses[-1]]; with [n_ring_num >= 1] the accesses
    [buses[0]] and [buses[-1]] are in bounds and the function returns. *)
Theorem add_ring_bus_from_to_defined g n_ring_num is_mesh :
  (n_ring_num <= 0 ->
     index (range (id_end g) (id_end g + n_ring_num)) (-1) = Raised IndexError /\
     index (range (id_end g) (id_end g + n_ring_num)) 0 = Raised IndexError /\
     add_ring_bus_from_to g n_ring_num is_mesh = Raised IndexError) /\
  (1 <= n_ring_num ->
     index (range (id_end g) (id_end g + n_ring_num)) 0 = Return (id_end g) /\
     index (range (id_end g) (id_end g + n_ring_num)) (-1)
       = Return (id_end g + n_ring_num - 1) /\
     add_ring_bus_from_to g n_ring_num is_mesh
       = Return (ring_added g n_ring_num is_mesh)).
Proof.
  split; intros Hn.
  - rewrite range_empty by lia. rewrite !index_nil.
    repeat split. now apply add_ring_raises.
  - repeat split.
    + now apply ring_first.
    + now apply ring_last.
    + now apply add_ring_returns.
Qed.

Lemma add_ring_bus_from_to_defined_witness :
  add_ring_bus_from_to (mkGridData 10 0 [] [] []) 0 true = Raised IndexError /\
  add_ring_bus_from_to (mkGridData 10 0 [] [] []) 4 true
    = Return (mkGridData 14 0 [10; 10; 11; 12; 10] [0; 11; 12; 13; 13]
                [10; 11; 12; 13]).
Proof.
  destruct (add_ring_bus_from_to_defined (mkGridData 10 0 [] [] []) 0 true)
    as [Hzero _].
  destruct (add_ring_bus_from_to_defined (mkGridData 10 0 [] [] []) 4 true)
    as [_ Hpos].
  split.
  - apply Hzero. lia.
  - apply Hpos. lia.
Defined.

(** C10: a call of [add_ring_bus_from_to] that returns has allocated
    exactly the identifiers [id_end, ..., id_end + n_ring_num - 1],
    appended them to [buses] and moved [id_end] up by [n_ring_num]; so if
    every identifier allocated before lies below [id_end], the same holds
    after, [id_end - 1] is the largest allocated identifier, the new
    identifiers are different from all earlier ones, and those of a
    following call are different from these. *)
Theorem add_ring_bus_from_to_allocates g n_ring_num is_mesh g' :
  add_ring_bus_from_to g n_ring_num is_mesh = Return g' ->
  1 <= n_ring_num /\
  buses g' = buses g ++ range (id_end g) (id_end g + n_ring_num) /\
  (forall b, In b (range (id_end g) (id_end g + n_ring_num))
             <-> id_end g <= b <= id_end g + n_ring_num - 1) /\
  id_end g' = id_end g + n_ring_num /\
  (below_id_end g ->
     below_id_end g' /\ id_end_tight g' /\
     (forall b, In b (buses g) ->
                ~ In b (range (id_end g) (id_end g + n_ring_num))) /\
     (List.NoDup (buses g) -> List.NoDup (buses g'))) /\
  (forall n2 is_mesh2 g'',
     add_ring_bus_from_to g' n2 is_mesh2 = Return g'' ->
     forall b, In b (range (id_end g) (id_end g + n_ring_num)) ->
               ~ In b (range (id_end g') (id_end g' + n2))).
Proof.
  intros H. apply add_ring_Return in H as [Hn ->].
  unfold ring_added. cbn [buses id_end].
  split; [exact Hn |]. split; [reflexivity |].
  split; [intros b; rewrite In_range; lia |].
  split; [reflexivity |].
  split.
  - intros Hbelow. unfold below_id_end, id_end_tight in *. cbn [buses id_end].
    rewrite List.Forall_forall in Hbelow.
    assert (Hfresh : forall b, In b (buses g) ->
              ~ In b (range (id_end g) (id_end g + n_ring_num))).
    { intros b Hb Hin. apply In_range in Hin. specialize (Hbelow b Hb). lia. }
    repeat split.
    + apply List.Forall_forall. intros b Hb. apply in_app_or in Hb as [Hb | Hb].
      * specialize (Hbelow b Hb). lia.
      * apply In_range in Hb. lia.
    + intros _. apply in_or_app. right. apply In_range. lia.
    + exact Hfresh.
    + intros Hnd. apply List.NoDup_app.
      * assumption.
      * apply NoDup_range.
      * intros b Hb Hin. exact (Hfresh b Hb Hin).
  - intros n2 is_mesh2 g'' _ b Hb Hin.
    apply In_range in Hb. apply In_range in Hin. lia.
Qed.

Lemma add_ring_bus_from_to_allocates_witness :
  buses (ring_added (mkGridData 10 0 [] [] []) 4 true) = [10; 11; 12; 13] /\
  id_end (ring_added (mkGridData 10 0 [] [] []) 4 true) = 14.
Proof.
  destruct (add_ring_bus_from_to_allocates (mkGridData 10 0 [] [] []) 4 true
              (ring_added (mkGridData 10 0 [] [] []) 4 true) eq_refl)
    as (_ & Hbuses & _ & Hend & _).
  split; [exact Hbuses | exact Hend].
Defined.

End TopologyClaims.

(** ** Residual computation *)

Module ResidualFacts.
Import Numpy Residual.

Lemma C_eq (a b : C) : fst a = fst b -> snd a = snd b -> a = b.
Proof. destruct a, b. cbn. now intros -> ->. Qed.

Ltac c_ring := apply C_eq; cbn; ring.

Lemma Cmul_0_l z : Cmul C0 z = C0.
Proof. c_ring. Qed.

Lemma Cadd_0_l z : Cadd C0 z = z.
Proof. c_ring. Qed.

Lemma Cadd_0_r z : Cadd z C0 = z.
Proof. c_ring. Qed.

Lemma Cmul_comm a b : Cmul a b = Cmul b a.
Proof. c_ring. Qed.

Lemma nth_zip_with {A B D} (f : A -> B -> D) (a : list A) (b : list B) k da db dd :
  (k < length a)%nat -> (k < length b)%nat ->
  nth k (zip_with f a b) dd = f (nth k a da) (nth k b db).
Proof.
  revert b k. induction a as [| x a IH]; intros [| y b] k Ha Hb; cbn in *; try lia.
  destruct k as [| k]; [reflexivity |]. apply IH; lia.
Qed.

Lemma length_zip_with_eq {A B D} (f : A -> B -> D) (a : list A) (b : list B) :
  length a = length b -> length (zip_with f a b) = length a.
Proof.
  revert b. induction a as [| x a IH]; intros [| y b] H; cbn in *; try lia.
  now rewrite IH by lia.
Qed.

Lemma nth_map_in {A B} (f : A -> B) (l : list A) k da db :
  (k < length l)%nat -> nth k (List.map f l) db = f (nth k l da).
Proof.
  intros H. rewrite (nth_indep _ db (f da)) by now rewrite length_map.
  apply map_nth.
Qed.

(** A dot product is the sum of the products, index by index. *)
Lemma dot_by_index (r x : list C) :
  length r = length x ->
  dot r x = Csum (List.map (fun j => Cmul (nth j r C0) (nth j x C0)) (seq 0 (length x))).
Proof.
  unfold dot, Csum. revert x. induction r as [| a r IH]; intros [| b x] H;
    cbn in *; try lia; [reflexivity |].
  f_equal. rewrite IH by lia.
  rewrite (PyListFacts.map_seq_from _ 1). reflexivity.
Qed.

(** The dot product with row [i] of a diagonal matrix picks entry [i]. *)
Lemma dot_diag_row (c : C) (i : nat) (x : list C) (s : nat) :
  dot (List.map (fun j => if Nat.eqb i j then c else C0) (seq s (length x))) x
  = if (s <=? i)%nat && (i <? s + length x)%nat
    then Cmul c (nth (i - s) x C0) else C0.
Proof.
  unfold dot. revert s. induction x as [| b x IH]; intros s.
  - cbn [length seq List.map zip_with fold_right].
    destruct (Nat.leb_spec s i); destruct (Nat.ltb_spec i (s + 0));
      try reflexivity; lia.
  - cbn [length seq List.map zip_with fold_right]. rewrite IH.
    destruct (Nat.eqb_spec i s) as [-> | Hne].
    + rewrite Nat.sub_diag. cbn [nth].
      destruct (Nat.leb_spec (S s) s); [lia |]. cbn [andb].
      destruct (Nat.leb_spec s s); [| lia].
      destruct (Nat.ltb_spec s (s + S (length x))); [| lia].
      cbn [andb]. apply Cadd_0_r.
    + rewrite Cmul_0_l, Cadd_0_l.
      destruct (Nat.leb_spec (S s) i); destruct (Nat.leb_spec s i); try lia;
        destruct (Nat.ltb_spec i (S s + length x));
        destruct (Nat.ltb_spec i (s + S (length x))); try lia;
        cbn [andb]; try reflexivity.
      replace (i - s)%nat with (S (i - S s)) by lia. reflexivity.
Qed.

(** Multiplying by [np.diag(v)] is the elementwise product with [v]. *)
Lemma matmul_diag (v x : list C) :
  length x = length v -> matmul (diag v) x = zip_with Cmul v x.
Proof.
  intros H. unfold matmul, diag. rewrite map_map.
  apply (nth_ext _ _ C0 C0).
  - rewrite length_map, length_seq, length_zip_with_eq; auto.
  - intros k Hk. rewrite length_map, length_seq in Hk.
    rewrite (nth_map_in _ _ _ 0%nat) by now rewrite length_seq.
    rewrite seq_nth by assumption. cbn [Nat.add].
    rewrite <- H, dot_diag_row.
    destruct (Nat.leb_spec 0 k); [| lia].
    destruct (Nat.ltb_spec k (0 + length x)); [| lia].
    cbn [andb]. rewrite Nat.sub_0_r.
    symmetry. apply nth_zip_with; lia.
Qed.

Lemma tl_map_seq {A} (f : nat -> A) n :
  tl (List.map f (seq 0 n)) = List.map f (seq 1 (n - 1)).
Proof. destruct n as [| n]; cbn; [reflexivity |]. now rewrite Nat.sub_0_r. Qed.

Section Shaped.
Variables (n : nat) (V_mag V_ang : list R) (Ybus : list (list C)) (S : list C).
Hypothesis shaped : well_shaped n V_mag V_ang Ybus S.

Let complex_v := complex_v V_mag V_ang.

Lemma length_complex_v : length complex_v = n.
Proof.
  destruct shaped as (Hm & Ha & _). unfold complex_v, Residual.complex_v.
  rewrite length_zip_with_eq; rewrite ?length_map; congruence.
Qed.

Lemma nth_complex_v j : (j < n)%nat -> nth j complex_v C0 = voltage V_mag V_ang j.
Proof.
  intros Hj. destruct shaped as (Hm & Ha & _).
  unfold complex_v, Residual.complex_v, voltage.
  rewrite (nth_zip_with _ _ _ _ 0%R 0%R) by (rewrite ?length_map; lia).
  rewrite (nth_map_in _ _ _ 0%R) by lia.
  now rewrite (Cmul_comm (RtoC _) Ci).
Qed.

Lemma nth_current k :
  (k < n)%nat ->
  nth k (matmul Ybus complex_v) C0 = current_at V_mag V_ang Ybus k.
Proof.
  intros Hk. destruct shaped as (Hm & Ha & HS & HY & Hrows).
  unfold matmul, current_at.
  rewrite (nth_map_in _ _ _ []) by lia.
  assert (Hrow : length (nth k Ybus []) = n).
  { rewrite List.Forall_forall in Hrows. apply Hrows, nth_In. lia. }
  rewrite dot_by_index by (rewrite length_complex_v; exact Hrow).
  rewrite length_complex_v, Hm. f_equal.
  apply map_ext_in. intros j Hj. apply in_seq in Hj.
  rewrite nth_complex_v by lia. reflexivity.
Qed.

(** The vector before the reference bus is dropped. *)
Lemma residual_all_buses :
  sub (matmul (diag complex_v) (List.map conj (matmul Ybus complex_v))) S
  = List.map (mismatch_at V_mag V_ang Ybus S) (seq 0 n).
Proof.
  destruct shaped as (Hm & Ha & HS & HY & Hrows).
  assert (Hcur : length (matmul Ybus complex_v) = n)
    by (unfold matmul; rewrite length_map; exact HY).
  rewrite matmul_diag by (rewrite length_map, length_complex_v; exact Hcur).
  pose proof length_complex_v as Hv.
  assert (Hconj : length (List.map conj (matmul Ybus complex_v)) = n)
    by (rewrite length_map; exact Hcur).
  assert (Hprod : length (zip_with Cmul complex_v
                            (List.map conj (matmul Ybus complex_v))) = n)
    by (rewrite length_zip_with_eq; congruence).
  unfold sub. apply (nth_ext _ _ C0 C0).
  - rewrite length_map, length_seq, length_zip_with_eq; congruence.
  - intros k Hk. rewrite length_zip_with_eq in Hk by congruence.
    rewrite Hprod in Hk.
    rewrite (nth_map_in _ _ _ 0%nat) by now rewrite length_seq.
    rewrite seq_nth by assumption. cbn [Nat.add].
    rewrite (nth_zip_with _ _ _ _ C0 C0) by lia.
    rewrite (nth_zip_with _ _ _ _ C0 C0) by lia.
    rewrite (nth_map_in _ _ _ C0) by lia.
    rewrite nth_complex_v, nth_current by assumption.
    reflexivity.
Qed.

End Shaped.

End ResidualFacts.

Module ResidualClaims.
Import Numpy Residual ResidualFacts.

(** The complex voltage in polar form. *)
Lemma voltage_polar V_mag V_ang j :
  voltage V_mag V_ang j =
  ((nth j V_mag 0%R * cos (deg2rad (nth j V_ang 0%R)))%R,
   (nth j V_mag 0%R * sin (deg2rad (nth j V_ang 0%R)))%R).
Proof.
  unfold voltage, Cmul, Cexp, RtoC, Ci. cbn [fst snd].
  replace (0 * deg2rad (nth j V_ang 0) - 1 * 0)%R with 0%R by ring.
  replace (0 * 0 + 1 * deg2rad (nth j V_ang 0))%R
    with (deg2rad (nth j V_ang 0%R)) by ring.
  rewrite exp_0. apply C_eq; cbn; ring.
Qed.

(** C2: on inputs of [n] buses, [compute_residual] returns the vector
    whose entry for bus [k >= 1] is [V_k * conj((Ybus V)_k) - S_k], where
    [V_j = V_mag_j * exp(i * deg2rad(V_ang_j))]: the mismatch
    [diag(V) conj(Ybus V) - S] without its entry for bus 0. *)
Theorem compute_residual_is_mismatch n V_mag V_ang Ybus S :
  well_shaped n V_mag V_ang Ybus S ->
  compute_residual V_mag V_ang Ybus S = mismatch_spec V_mag V_ang Ybus S /\
  length (compute_residual V_mag V_ang Ybus S) = (n - 1)%nat /\
  forall k, (k < n - 1)%nat ->
    nth k (compute_residual V_mag V_ang Ybus S) C0
    = mismatch_at V_mag V_ang Ybus S (Datatypes.S k).
Proof.
  intros Hshape.
  assert (Heq : compute_residual V_mag V_ang Ybus S = mismatch_spec V_mag V_ang Ybus S).
  { unfold compute_residual, mismatch_spec.
    rewrite PyListFacts.slice_from_1.
    fold (complex_v V_mag V_ang).
    rewrite (residual_all_buses n V_mag V_ang Ybus S Hshape).
    rewrite tl_map_seq. destruct Hshape as (-> & _). reflexivity. }
  split; [exact Heq |]. rewrite Heq. unfold mismatch_spec.
  destruct Hshape as (-> & _).
  split; [now rewrite length_map, length_seq |].
  intros k Hk.
  rewrite (nth_map_in _ _ _ 0%nat) by now rewrite length_seq.
  now rewrite seq_nth by assumption.
Qed.

Lemma compute_residual_is_mismatch_witness :
  compute_residual [1%R; 1%R] [0%R; 0%R] TwoBus.Ybus TwoBus.Sbus
  = [mismatch_at [1%R; 1%R] [0%R; 0%R] TwoBus.Ybus TwoBus.Sbus 1].
Proof.
  refine (proj1 (compute_residual_is_mismatch 2 [1%R; 1%R] [0%R; 0%R]
                   TwoBus.Ybus TwoBus.Sbus _)).
  unfold well_shaped, TwoBus.Ybus, TwoBus.Sbus.
  repeat split; repeat constructor.
Defined.

End ResidualClaims.

(** ** The sampler *)

Module SamplerFacts.
Import Numpy Residual Sampler.

Section WithSolver.
Context `{PP : PandaPower} `{RNG : NumpyRandom}.

Lemma fresh_ref_new (m : gmap ref Net) : m !! fresh (dom m) = None.
Proof. apply not_elem_of_dom, is_fresh. Qed.

Lemma fresh_ref_differs (m : gmap ref Net) (r : ref) (n : Net) :
  m !! r = Some n -> r <> fresh (dom m).
Proof. intros H ->. rewrite fresh_ref_new in H. discriminate. Qed.

Section Draw.
Variables (net : ref) (v_nominal theta_nominal : list R) (i : Z).
Variables (self : PowerFlowDataset) (w : world) (net0 base : Net).
Hypothesis base_net_valid : nets w !! base_net self = Some net0.
Hypothesis net_valid : nets w !! net = Some base.

Let c := rng_calls w.
Let o := draw_options self v_nominal theta_nominal c.
Let net_ill := fresh (dom (nets w)).

(** A draw whose solve converges appends one record and prints
    nothing. *)
Lemma sample_draw_converged solved :
  pp_runpp o net0 = (solved, true) ->
  sample_draw net v_nominal theta_nominal i self w
  = Ok (append_sample self
          (sample_record base solved (v_ill_of self v_nominal c)
             (theta_ill_of self theta_nominal c)))
       (mkWorld (<[net_ill := solved]> (<[net_ill := net0]> (nets w)))
          (S (S c)) (solver_calls w ++ [(net_ill, o)]) (stdout w) (files w)).
Proof.
  intros Hsolve.
  unfold sample_draw, bind, deepcopy. rewrite base_net_valid.
  unfold np_random_uniform, try_except_not_converged, bind, runpp.
  cbn [nets rng_calls solver_calls stdout files].
  rewrite lookup_insert_eq.
  fold c net_ill. fold (v_ill_of self v_nominal c).
  fold (theta_ill_of self theta_nominal c).
  fold (draw_options self v_nominal theta_nominal c). fold o.
  rewrite Hsolve.
  unfold read_net, ret. cbn [nets rng_calls solver_calls stdout files].
  rewrite lookup_insert_eq. cbn [nets].
  rewrite !lookup_insert_ne by (symmetry; eapply fresh_ref_differs; eassumption).
  rewrite net_valid. reflexivity.
Qed.

(** A draw whose solve does not converge appends nothing and prints
    one diagnostic. *)
Lemma sample_draw_not_converged failed :
  pp_runpp o net0 = (failed, false) ->
  sample_draw net v_nominal theta_nominal i self w
  = Ok self
       (mkWorld (<[net_ill := failed]> (<[net_ill := net0]> (nets w)))
          (S (S c)) (solver_calls w ++ [(net_ill, o)])
          (stdout w ++ [not_converged_message i]) (files w)).
Proof.
  intros Hsolve.
  unfold sample_draw, bind, deepcopy. rewrite base_net_valid.
  unfold np_random_uniform, try_except_not_converged, bind, runpp.
  cbn [nets rng_calls solver_calls stdout files].
  rewrite lookup_insert_eq.
  fold c net_ill. fold (v_ill_of self v_nominal c).
  fold (theta_ill_of self theta_nominal c).
  fold (draw_options self v_nominal theta_nominal c). fold o.
  rewrite Hsolve. reflexivity.
Qed.

End Draw.

Lemma same_config_refl a : same_config a a.
Proof. unfold same_config. tauto. Qed.

Lemma same_config_append a s : same_config a (append_sample a s).
Proof. unfold same_config. cbn. tauto. Qed.

Lemma same_config_trans a b d : same_config a b -> same_config b d -> same_config a d.
Proof. unfold same_config. intuition congruence. Qed.

Lemma draw_options_same_config a b v_nominal theta_nominal c :
  same_config a b ->
  v_ill_of a v_nominal c = v_ill_of b v_nominal c /\
  theta_ill_of a theta_nominal c = theta_ill_of b theta_nominal c /\
  draw_options a v_nominal theta_nominal c = draw_options b v_nominal theta_nominal c.
Proof.
  intros (_ & _ & Hi & Ht & Hv & Hth).
  unfold draw_options, ill_options, v_ill_of, theta_ill_of.
  now rewrite Hi, Ht, Hv, Hth.
Qed.

Lemma retained_same_config a b net0 base v_nominal theta_nominal l :
  same_config a b -> forall c,
  retained a net0 base v_nominal theta_nominal c l
  = retained b net0 base v_nominal theta_nominal c l.
Proof.
  intros Hab. induction l as [| i l IH]; intros c; [reflexivity |].
  cbn [retained].
  destruct (draw_options_same_config a b v_nominal theta_nominal c Hab)
    as (-> & -> & ->).
  now rewrite IH.
Qed.

Lemma diagnostics_same_config a b net0 v_nominal theta_nominal l :
  same_config a b -> forall c,
  diagnostics a net0 v_nominal theta_nominal c l
  = diagnostics b net0 v_nominal theta_nominal c l.
Proof.
  intros Hab. induction l as [| i l IH]; intros c; [reflexivity |].
  cbn [diagnostics].
  destruct (draw_options_same_config a b v_nominal theta_nominal c Hab)
    as (_ & _ & ->).
  now rewrite IH.
Qed.

Lemma draw_calls_same_config a b v_nominal theta_nominal l :
  same_config a b -> forall c,
  draw_calls a v_nominal theta_nominal c l = draw_calls b v_nominal theta_nominal c l.
Proof.
  intros Hab. induction l as [| i l IH]; intros c; [reflexivity |].
  cbn [draw_calls].
  destruct (draw_options_same_config a b v_nominal theta_nominal c Hab)
    as (_ & _ & ->).
  now rewrite IH.
Qed.

(** The sampling loop: it always returns, and its effect is the one
    described draw by draw. *)
Lemma for_each_draws net v_nominal theta_nominal net0 base l :
  forall self w,
    nets w !! base_net self = Some net0 ->
    nets w !! net = Some base ->
    exists self' w' locs,
      for_each l (sample_draw net v_nominal theta_nominal) self w = Ok self' w' /\
      samples self' = samples self
        ++ retained self net0 base v_nominal theta_nominal (rng_calls w) l /\
      same_config self self' /\
      stdout w' = stdout w
        ++ diagnostics self net0 v_nominal theta_nominal (rng_calls w) l /\
      solver_calls w' = solver_calls w
        ++ combine locs (draw_calls self v_nominal theta_nominal (rng_calls w) l) /\
      length locs = length l /\
      Forall (fun r => nets w !! r = None) locs /\
      (forall r n, nets w !! r = Some n -> nets w' !! r = Some n) /\
      rng_calls w' = (rng_calls w + 2 * length l)%nat /\
      files w' = files w.
Proof.
  induction l as [| i l IH]; intros self w Hbase Hnet.
  - exists self, w, []. cbn. rewrite !app_nil_r, Nat.add_0_r.
    split_and!; auto using same_config_refl.
  - cbn [for_each]. unfold bind.
    set (c := rng_calls w).
    set (o := draw_options self v_nominal theta_nominal c).
    set (r0 := fresh (dom (nets w))).
    assert (Hkeep : forall solved r n, nets w !! r = Some n ->
              <[r0 := solved]> (<[r0 := net0]> (nets w)) !! r = Some n).
    { intros solved r n Hr.
      rewrite !lookup_insert_ne by (symmetry; eapply fresh_ref_differs; eassumption).
      exact Hr. }
    destruct (pp_runpp o net0) as [solved ok] eqn:Hsolve.
    cbn [retained diagnostics draw_calls]. fold c o. rewrite Hsolve. cbn [fst snd].
    destruct ok.
    + rewrite (sample_draw_converged net v_nominal theta_nominal i self w net0 base
                 Hbase Hnet solved Hsolve).
      fold c o r0.
      match goal with |- context [for_each l _ ?s ?w1] =>
        destruct (IH s w1) as (self' & w' & locs & Hrun & Hs & Hc & Hout & Hcalls
                               & Hlen & Hnew & Hpres & Hrng & Hfiles) end.
      { cbn [nets base_net append_sample]. now apply Hkeep. }
      { cbn [nets]. now apply Hkeep. }
      cbn [nets rng_calls solver_calls stdout files samples append_sample] in *.
      pose proof (same_config_append self
                    (sample_record base solved (v_ill_of self v_nominal c)
                       (theta_ill_of self theta_nominal c))) as Happ.
      rewrite <- (retained_same_config _ _ _ _ _ _ _ Happ) in Hs.
      rewrite <- (diagnostics_same_config _ _ _ _ _ _ Happ) in Hout.
      rewrite <- (draw_calls_same_config _ _ _ _ _ Happ) in Hcalls.
      exists self', w', (r0 :: locs). rewrite Hrun. cbn [combine app].
      split_and!.
      * reflexivity.
      * rewrite Hs. now rewrite <- app_assoc.
      * eapply same_config_trans; eassumption.
      * exact Hout.
      * rewrite Hcalls. now rewrite <- app_assoc.
      * cbn [length]. now rewrite Hlen.
      * constructor; [apply fresh_ref_new |].
        eapply List.Forall_impl; [| exact Hnew]. cbn beta. intros r Hr.
        destruct (nets w !! r) as [n |] eqn:E; [| reflexivity].
        rewrite (Hkeep solved r n E) in Hr. discriminate.
      * intros r n Hr. apply Hpres, Hkeep, Hr.
      * rewrite Hrng. cbn [length]. lia.
      * exact Hfiles.
    + rewrite (sample_draw_not_converged net v_nominal theta_nominal i self w net0
                 Hbase solved Hsolve).
      fold c o r0.
      match goal with |- context [for_each l _ ?s ?w1] =>
        destruct (IH s w1) as (self' & w' & locs & Hrun & Hs & Hc & Hout & Hcalls
                               & Hlen & Hnew & Hpres & Hrng & Hfiles) end.
      { cbn [nets]. now apply Hkeep. }
      { cbn [nets]. now apply Hkeep. }
      cbn [nets rng_calls solver_calls stdout files] in *.
      exists self', w', (r0 :: locs). rewrite Hrun. cbn [combine app].
      split_and!.
      * reflexivity.
      * exact Hs.
      * exact Hc.
      * rewrite Hout. now rewrite <- app_assoc.
      * rewrite Hcalls. now rewrite <- app_assoc.
      * cbn [length]. now rewrite Hlen.
      * constructor; [apply fresh_ref_new |].
        eapply List.Forall_impl; [| exact Hnew]. cbn beta. intros r Hr.
        destruct (nets w !! r) as [n |] eqn:E; [| reflexivity].
        rewrite (Hkeep solved r n E) in Hr. discriminate.
      * intros r n Hr. apply Hpres, Hkeep, Hr.
      * rewrite Hrng. cbn [length]. lia.
      * exact Hfiles.
Qed.

Section Run.
Variables (self : PowerFlowDataset) (w : world) (net0 : Net).
Hypothesis base_net_valid : nets w !! base_net self = Some net0.

Let net := fresh (dom (nets w)).

(** When the base case does not converge, [generate_samples] returns
    at once: no sample, no diagnostic, no file. *)
Lemma generate_samples_base_not_converged failed :
  pp_runpp base_options net0 = (failed, false) ->
  generate_samples self w
  = Ok self
      (mkWorld (<[net := failed]> (<[net := net0]> (nets w))) (rng_calls w)
         (solver_calls w ++ [(net, base_options)]) (stdout w) (files w)).
Proof.
  intros Hsolve.
  unfold generate_samples, bind, deepcopy. rewrite base_net_valid.
  unfold try_except_not_converged, bind, runpp.
  cbn [nets rng_calls solver_calls stdout files].
  rewrite lookup_insert_eq, Hsolve. reflexivity.
Qed.

(** When the base case converges, [generate_samples] returns, and its
    effect is the one described draw by draw, followed by the dump of
    the samples. *)
Lemma generate_samples_converged base :
  pp_runpp base_options net0 = (base, true) ->
  exists self' w' locs,
    generate_samples self w = Ok self' w' /\
    samples self' = samples self
      ++ retained self net0 base (res_bus_vm_pu base) (res_bus_va_degree base)
           (rng_calls w) (PyList.range 0 (num_samples self)) /\
    same_config self self' /\
    stdout w' = stdout w
      ++ diagnostics self net0 (res_bus_vm_pu base) (res_bus_va_degree base)
           (rng_calls w) (PyList.range 0 (num_samples self)) /\
    solver_calls w' = solver_calls w
      ++ (net, base_options)
         :: combine locs
              (draw_calls self (res_bus_vm_pu base) (res_bus_va_degree base)
                 (rng_calls w) (PyList.range 0 (num_samples self))) /\
    length locs = length (PyList.range 0 (num_samples self)) /\
    Forall (fun r => nets w !! r = None) (net :: locs) /\
    (forall r n, nets w !! r = Some n -> nets w' !! r = Some n) /\
    files w' = <["data.pkl"%string := samples self']> (files w).
Proof.
  intros Hsolve.
  unfold generate_samples, bind, deepcopy. rewrite base_net_valid.
  unfold try_except_not_converged, bind, runpp.
  cbn [nets rng_calls solver_calls stdout files].
  rewrite lookup_insert_eq, Hsolve. fold net.
  unfold ret at 1. cbn [negb]. unfold read_net at 1.
  cbn [nets]. rewrite lookup_insert_eq.
  assert (Hkeep : forall r n, nets w !! r = Some n ->
            <[net := base]> (<[net := net0]> (nets w)) !! r = Some n).
  { intros r n Hr.
    rewrite !lookup_insert_ne by (symmetry; eapply fresh_ref_differs; eassumption).
    exact Hr. }
  match goal with |- context [for_each ?l _ self ?w1] =>
    destruct (for_each_draws net (res_bus_vm_pu base) (res_bus_va_degree base)
                net0 base l self w1)
      as (self' & w' & locs & Hrun & Hs & Hc & Hout & Hcalls
          & Hlen & Hnew & Hpres & Hrng & Hfiles) end.
  { cbn [nets]. now apply Hkeep. }
  { cbn [nets]. apply lookup_insert_eq. }
  cbn [nets rng_calls solver_calls stdout files] in *.
  exists self',
    (mkWorld (nets w') (rng_calls w') (solver_calls w') (stdout w')
       (<["data.pkl"%string := samples self']> (files w'))),
    locs.
  rewrite Hrun.
  unfold pickle_dump, ret. cbn [nets rng_calls solver_calls stdout files].
  split_and!.
  - reflexivity.
  - exact Hs.
  - exact Hc.
  - exact Hout.
  - rewrite Hcalls. now rewrite <- app_assoc.
  - exact Hlen.
  - constructor; [apply fresh_ref_new |].
    eapply List.Forall_impl; [| exact Hnew]. cbn beta. intros r Hr.
    destruct (nets w !! r) as [n |] eqn:E; [| reflexivity].
    rewrite (Hkeep r n E) in Hr. discriminate.
  - intros r n Hr. apply Hpres, Hkeep, Hr.
  - now rewrite Hfiles.
Qed.

End Run.

(** A dangling base reference stops [generate_samples] before it does
    anything. *)
Lemma generate_samples_dangling self w :
  nets w !! base_net self = None ->
  generate_samples self w = Raise DanglingReference w.
Proof.
  intros H. unfold generate_samples, bind, deepcopy. now rewrite H.
Qed.

(** *** Facts about the draw-by-draw description *)

Section Records.
Variables (base solved : Net) (v_ill theta_ill : list R).

Let rec := sample_record base solved v_ill theta_ill.

Lemma sample_record_dom : dom rec = sample_keys.
Proof.
  unfold rec, sample_record, py_dict, sample_keys. cbn [fold_left fst snd].
  rewrite !dom_insert_L, dom_empty_L. cbn [list_to_set foldr]. set_solver.
Qed.

Lemma sample_record_no_input : rec !! "input"%string = None.
Proof.
  unfold rec, sample_record, py_dict. cbn [fold_left fst snd].
  repeat (rewrite lookup_insert_ne by discriminate). apply lookup_empty.
Qed.

Lemma sample_record_fields :
  rec !! "iterations"%string = Some (VInt (ppc_iterations base)) /\
  rec !! "V_init"%string = Some (VArray v_ill) /\
  rec !! "theta_init"%string = Some (VArray theta_ill) /\
  rec !! "V_pred"%string = Some (VArray (res_bus_vm_pu solved)) /\
  rec !! "Phi_pred"%string = Some (VArray (res_bus_va_degree solved)) /\
  rec !! "resd_real"%string
    = Some (VArray (List.map real
              (compute_residual (res_bus_vm_pu solved) (res_bus_va_degree solved)
                 (ppc_Ybus solved) (ppc_Sbus solved)))) /\
  rec !! "resd_imag"%string
    = Some (VArray (List.map imag
              (compute_residual (res_bus_vm_pu solved) (res_bus_va_degree solved)
                 (ppc_Ybus solved) (ppc_Sbus solved)))).
Proof.
  unfold rec, sample_record, py_dict. cbn [fold_left fst snd].
  split_and!;
    repeat (rewrite lookup_insert_ne by discriminate);
    apply lookup_insert_eq.
Qed.

End Records.

Section Draws.
Variables (self : PowerFlowDataset) (net0 base : Net).
Variables (v_nominal theta_nominal : list R).

(** Every draw is either retained or reported, never both. *)
Lemma retained_or_reported l : forall c,
  (length (retained self net0 base v_nominal theta_nominal c l)
   + length (diagnostics self net0 v_nominal theta_nominal c l))%nat
  = length l.
Proof.
  induction l as [| i l IH]; intros c; [reflexivity |].
  cbn [retained diagnostics]. rewrite !length_app.
  specialize (IH (S (S c))).
  destruct (snd (pp_runpp _ net0)); cbn [length]; lia.
Qed.

Lemma length_draw_calls l : forall c,
  length (draw_calls self v_nominal theta_nominal c l) = length l.
Proof.
  induction l as [| i l IH]; intros c; [reflexivity |].
  cbn [draw_calls length]. now rewrite IH.
Qed.

Lemma retained_recorded l : forall c,
  Forall (recorded net0 base) (retained self net0 base v_nominal theta_nominal c l).
Proof.
  induction l as [| i l IH]; intros c; [constructor |].
  cbn [retained]. apply Forall_app. split; [| apply IH].
  destruct (pp_runpp (draw_options self v_nominal theta_nominal c) net0)
    as [solved ok] eqn:Hsolve.
  cbn [fst snd]. destruct ok; constructor; [| constructor].
  destruct (sample_record_fields base solved (v_ill_of self v_nominal c)
              (theta_ill_of self theta_nominal c))
    as (Hit & Hv & Ht & Hvp & Hpp & Hre & Him).
  split; [exact Hit |].
  exists (draw_options self v_nominal theta_nominal c), solved,
    (v_ill_of self v_nominal c), (theta_ill_of self theta_nominal c).
  split_and!; try assumption; reflexivity.
Qed.

Lemma retained_keys l : forall c,
  Forall (fun rec => dom rec = sample_keys /\ rec !! "input"%string = None)
         (retained self net0 base v_nominal theta_nominal c l).
Proof.
  induction l as [| i l IH]; intros c; [constructor |].
  cbn [retained]. apply Forall_app. split; [| apply IH].
  destruct (snd (pp_runpp _ net0)); constructor; [| constructor].
  split; [apply sample_record_dom | apply sample_record_no_input].
Qed.

(** A perturbed vector stays within the radius of its draws. *)
Lemma perturbed_within (radius : R) (nominal : list R) (c : nat) :
  draws_in_range -> (0 <= radius)%R ->
  within radius nominal
    (add nominal (List.map (random_draw c (- radius) radius)
                    (seq 0 (length nominal)))).
Proof.
  intros Hdraws Hr. unfold within, add.
  assert (Hlen : length (List.map (random_draw c (- radius) radius)
                           (seq 0 (length nominal))) = length nominal)
    by now rewrite length_map, length_seq.
  split.
  - rewrite ResidualFacts.length_zip_with_eq; congruence.
  - intros k Hk.
    rewrite (ResidualFacts.nth_zip_with _ _ _ _ 0%R 0%R) by lia.
    rewrite (ResidualFacts.nth_map_in _ _ _ 0%nat) by now rewrite length_seq.
    rewrite seq_nth by assumption. cbn [Nat.add].
    pose proof (Hdraws c (- radius)%R radius k ltac:(lra)). lra.
Qed.

Lemma draw_calls_within l :
  draws_in_range -> (0 <= v_perturb self)%R -> (0 <= theta_perturb self)%R ->
  forall c, Forall (guess_within self v_nominal theta_nominal)
              (draw_calls self v_nominal theta_nominal c l).
Proof.
  intros Hdraws Hv Ht. induction l as [| i l IH]; intros c; constructor.
  - exists (v_ill_of self v_nominal c), (theta_ill_of self theta_nominal c).
    split_and!; try reflexivity.
    + now apply perturbed_within.
    + now apply perturbed_within.
  - apply IH.
Qed.

End Draws.

End WithSolver.

End SamplerFacts.

Module SamplerClaims.
Import Numpy Residual Sampler SamplerFacts.

Section WithSolver.
Context `{PP : PandaPower} `{RNG : NumpyRandom}.

(** C3: when the base case converges, [generate_samples] returns, and
    every record it appended holds under ['iterations'] the iteration
    count read from the solved base network, and under ['resd_real']
    and ['resd_imag'] the residual computed from the solution of the
    perturbed solve whose initial guess the record holds. *)
Theorem generate_samples_records self w net0 base :
  nets w !! base_net self = Some net0 ->
  pp_runpp base_options net0 = (base, true) ->
  exists self' w' new,
    generate_samples self w = Ok self' w' /\
    samples self' = samples self ++ new /\
    Forall (recorded net0 base) new.
Proof.
  intros Hvalid Hbase.
  destruct (generate_samples_converged self w net0 Hvalid base Hbase)
    as (self' & w' & locs & Hrun & Hs & _).
  exists self', w'. eexists. split; [exact Hrun |]. split; [exact Hs |].
  apply retained_recorded.
Qed.

(** C4: when the base case converges and the sample count is not
    negative, [generate_samples] returns; each draw made one solver call
    and left either one record or one diagnostic, so the records kept
    and the draws discarded add up to [num_samples]. *)
Theorem generate_samples_counts self w net0 base :
  nets w !! base_net self = Some net0 ->
  pp_runpp base_options net0 = (base, true) ->
  0 <= num_samples self ->
  exists self' w' base_call draw_solves,
    generate_samples self w = Ok self' w' /\
    samples self' = samples self
      ++ retained self net0 base (res_bus_vm_pu base) (res_bus_va_degree base)
           (rng_calls w) (PyList.range 0 (num_samples self)) /\
    stdout w' = stdout w
      ++ diagnostics self net0 (res_bus_vm_pu base) (res_bus_va_degree base)
           (rng_calls w) (PyList.range 0 (num_samples self)) /\
    solver_calls w' = solver_calls w ++ base_call :: draw_solves /\
    PyList.len draw_solves = num_samples self /\
    (PyList.len (samples self') - PyList.len (samples self))
    + (PyList.len (stdout w') - PyList.len (stdout w)) = num_samples self.
Proof.
  intros Hvalid Hbase Hn.
  destruct (generate_samples_converged self w net0 Hvalid base Hbase)
    as (self' & w' & locs & Hrun & Hs & _ & Hout & Hcalls & Hlen & _).
  exists self', w'. do 2 eexists.
  split; [exact Hrun |]. split; [exact Hs |]. split; [exact Hout |].
  split; [exact Hcalls |].
  pose proof (retained_or_reported self net0 base (res_bus_vm_pu base)
                (res_bus_va_degree base) (PyList.range 0 (num_samples self))
                (rng_calls w)) as Hsum.
  rewrite PyListFacts.length_range in *.
  split.
  - unfold PyList.len. rewrite length_combine, length_draw_calls, Hlen.
    rewrite PyListFacts.length_range. lia.
  - rewrite Hs, Hout. unfold PyList.len. rewrite !length_app. lia.
Qed.

(** C5: a draw on which the solver does not converge makes one solver
    call, on a new copy; it returns the dataset object as it was (no
    record appended, nothing else changed), prints the diagnostic with
    the index of the draw, leaves the files alone, and the loop goes on
    with the next draw. *)
Theorem sample_draw_discards net v_nominal theta_nominal i self w net0 base failed :
  nets w !! base_net self = Some net0 ->
  nets w !! net = Some base ->
  pp_runpp (draw_options self v_nominal theta_nominal (rng_calls w)) net0
    = (failed, false) ->
  exists w',
    sample_draw net v_nominal theta_nominal i self w = Ok self w' /\
    stdout w' = stdout w
      ++ [("Sample " +:+ pretty i +:+ ": Ill-conditioned case did not converge!")%string] /\
    solver_calls w' = solver_calls w
      ++ [(fresh (dom (nets w)),
           draw_options self v_nominal theta_nominal (rng_calls w))] /\
    files w' = files w /\
    (forall r n, nets w !! r = Some n -> nets w' !! r = Some n) /\
    forall rest,
      for_each (i :: rest) (sample_draw net v_nominal theta_nominal) self w
      = for_each rest (sample_draw net v_nominal theta_nominal) self w'.
Proof.
  intros Hvalid Hnet Hsolve.
  eexists. split.
  { apply (sample_draw_not_converged net v_nominal theta_nominal i self w net0
             Hvalid failed Hsolve). }
  cbn [nets rng_calls solver_calls stdout files].
  split_and!; try reflexivity.
  - intros r n Hr.
    rewrite !lookup_insert_ne by (symmetry; eapply fresh_ref_differs; eassumption).
    exact Hr.
  - intros rest. cbn [for_each]. unfold bind.
    now rewrite (sample_draw_not_converged net v_nominal theta_nominal i self w net0
                   Hvalid failed Hsolve).
Qed.

(** C6: with draws in the documented range of [np.random.uniform] and
    perturbation radii that are not negative, the initial guess given
    to the solver on every draw has its magnitudes within [v_perturb]
    and its angles within [theta_perturb] of the base-case solution,
    entry by entry; there is one such solver call per draw. *)
Theorem perturbed_guesses_within self w net0 base :
  draws_in_range ->
  (0 <= v_perturb self)%R -> (0 <= theta_perturb self)%R ->
  nets w !! base_net self = Some net0 ->
  pp_runpp base_options net0 = (base, true) ->
  exists self' w' base_call draw_solves,
    generate_samples self w = Ok self' w' /\
    solver_calls w' = solver_calls w ++ base_call :: draw_solves /\
    length draw_solves = length (PyList.range 0 (num_samples self)) /\
    Forall (fun call =>
              guess_within self (res_bus_vm_pu base) (res_bus_va_degree base)
                (snd call))
           draw_solves.
Proof.
  intros Hdraws Hv Ht Hvalid Hbase.
  destruct (generate_samples_converged self w net0 Hvalid base Hbase)
    as (self' & w' & locs & Hrun & _ & _ & _ & Hcalls & Hlen & _).
  exists self', w'. do 2 eexists.
  split; [exact Hrun |]. split; [exact Hcalls |].
  pose proof (length_draw_calls self (res_bus_vm_pu base) (res_bus_va_degree base)
                (PyList.range 0 (num_samples self)) (rng_calls w)) as Hlen'.
  pose proof (draw_calls_within self (res_bus_vm_pu base) (res_bus_va_degree base)
                (PyList.range 0 (num_samples self)) Hdraws Hv Ht (rng_calls w))
    as Hwithin.
  split.
  - rewrite length_combine. lia.
  - apply List.Forall_forall. intros [r o] Hin.
    apply in_combine_r in Hin. cbn [snd].
    rewrite List.Forall_forall in Hwithin. now apply Hwithin.
Qed.

(** C7: [generate_samples] changes no network object that existed
    before it ran, the base network among them, whether it returns or
    not: the object behind [base_net] is the same after as before, every
    solver call was made on an object created during the run, and the
    same holds after any number of rounds of the sampling loop. *)
Theorem generate_samples_keeps_base_net self w :
  nets (world_of (generate_samples self w)) !! base_net self
    = nets w !! base_net self /\
  (forall r n, nets w !! r = Some n ->
     nets (world_of (generate_samples self w)) !! r = Some n) /\
  (exists calls,
     solver_calls (world_of (generate_samples self w)) = solver_calls w ++ calls /\
     Forall (fun call => nets w !! fst call = None /\ fst call <> base_net self)
            calls) /\
  (forall net v_nominal theta_nominal net0 base draws,
     nets w !! base_net self = Some net0 ->
     nets w !! net = Some base ->
     nets (world_of (for_each draws (sample_draw net v_nominal theta_nominal) self w))
       !! base_net self = Some net0).
Proof.
  assert (Hmain :
    (forall r n, nets w !! r = Some n ->
       nets (world_of (generate_samples self w)) !! r = Some n) /\
    (exists calls,
       solver_calls (world_of (generate_samples self w)) = solver_calls w ++ calls /\
       Forall (fun call => nets w !! fst call = None) calls)).
  { destruct (nets w !! base_net self) as [net0 |] eqn:Hvalid.
    - destruct (pp_runpp base_options net0) as [base ok] eqn:Hbase.
      destruct ok.
      + destruct (generate_samples_converged self w net0 Hvalid base Hbase)
          as (self' & w' & locs & Hrun & _ & _ & _ & Hcalls & Hlen & Hnew & Hpres & _).
        rewrite Hrun. cbn [world_of]. split; [exact Hpres |].
        eexists. split; [exact Hcalls |].
        apply List.Forall_forall. intros [r o] Hin.
        rewrite List.Forall_forall in Hnew. apply Hnew. cbn [fst].
        destruct Hin as [Hin | Hin].
        * left. congruence.
        * right. eapply in_combine_l, Hin.
      + rewrite (generate_samples_base_not_converged self w net0 Hvalid base Hbase).
        cbn [world_of nets solver_calls]. split.
        * intros r n Hr.
          rewrite !lookup_insert_ne
            by (symmetry; eapply fresh_ref_differs; eassumption).
          exact Hr.
        * eexists. split; [reflexivity |].
          constructor; [| constructor]. apply fresh_ref_new.
    - rewrite (generate_samples_dangling self w Hvalid). cbn [world_of].
      split; [auto |]. exists []. split; [now rewrite app_nil_r | constructor]. }
  destruct Hmain as [Hpres (calls & Hcalls & Hnew)].
  split_and!.
  - destruct (nets w !! base_net self) as [net0 |] eqn:Hvalid.
    + now apply Hpres.
    + now rewrite (generate_samples_dangling self w Hvalid).
  - exact Hpres.
  - exists calls. split; [exact Hcalls |].
    apply List.Forall_forall. intros call Hin.
    rewrite List.Forall_forall in Hnew. specialize (Hnew call Hin).
    split; [exact Hnew |].
    intros Heq. rewrite Heq in Hnew.
    rewrite (generate_samples_dangling self w Hnew) in Hcalls.
    cbn [world_of] in Hcalls.
    apply (f_equal (@length _)) in Hcalls. rewrite length_app in Hcalls.
    destruct calls; [destruct Hin | cbn in Hcalls; lia].
  - intros net v_nominal theta_nominal net0 base draws Hvalid Hnet.
    destruct (for_each_draws net v_nominal theta_nominal net0 base draws self w
                Hvalid Hnet)
      as (self' & w' & locs & Hrun & _ & _ & _ & _ & _ & _ & Hpres' & _).
    rewrite Hrun. cbn [world_of]. now apply Hpres'.
Qed.

(** The constructor returns whenever its argument names a network, and
    the records of the new object are those of [generate_samples]. *)
Lemma PowerFlowDataset_init_returns base_network n_samples max_it tol v_p theta_p
    w net0 :
  nets w !! base_network = Some net0 ->
  exists self' w',
    PowerFlowDataset_init base_network n_samples max_it tol v_p theta_p w
      = Ok self' w' /\
    Forall (fun rec => dom rec = sample_keys /\ rec !! "input"%string = None)
           (samples self').
Proof.
  intros Hvalid. unfold PowerFlowDataset_init, bind, deepcopy. rewrite Hvalid.
  match goal with |- context [generate_samples ?s ?wd] =>
    set (self0 := s); set (w1 := wd) end.
  assert (Hvalid1 : nets w1 !! base_net self0 = Some net0)
    by (unfold w1, self0; cbn [nets base_net]; apply lookup_insert_eq).
  destruct (pp_runpp base_options net0) as [base ok] eqn:Hbase. destruct ok.
  - destruct (generate_samples_converged self0 w1 net0 Hvalid1 base Hbase)
      as (self' & w' & locs & Hrun & Hs & _).
    exists self', w'. split; [exact Hrun |].
    rewrite Hs. unfold self0 at 1. cbn [samples app]. apply retained_keys.
  - rewrite (generate_samples_base_not_converged self0 w1 net0 Hvalid1 base Hbase).
    do 2 eexists. split; [reflexivity |]. unfold self0. cbn [samples]. constructor.
Qed.

End WithSolver.

(** Indexing a dataset none of whose records has the key ['input']. *)
Lemma getitem_without_input `{Torch} (self : PowerFlowDataset) (idx : Z) :
  Forall (fun rec : gmap string value => rec !! "input"%string = None) (samples self) ->
  (- len self <= idx < len self ->
     getitem self idx = Raised (KeyError "input")) /\
  (~ (- len self <= idx < len self) -> getitem self idx = Raised IndexError).
Proof.
  intros Hkeys. unfold getitem, len. split; intros Hidx.
  - destruct (PyListFacts.index_in_range (samples self) idx Hidx) as (rec & -> & Hin).
    cbn [obind]. rewrite List.Forall_forall in Hkeys.
    unfold dict_get. now rewrite (Hkeys rec Hin).
  - now rewrite PyListFacts.index_out_of_range.
Qed.

(** C8: on a dataset made by the constructor, [__getitem__(idx)] raises
    [KeyError('input')] for every index of a record, counted from either
    end, and [IndexError] for every other index, so it never returns;
    every record has exactly the eleven keys written by
    [generate_samples]. *)
Theorem getitem_raises `{PP : PandaPower} `{RNG : NumpyRandom} `{T : Torch}
    base_network n_samples max_it tol v_p theta_p w net0 :
  nets w !! base_network = Some net0 ->
  exists self' w',
    PowerFlowDataset_init base_network n_samples max_it tol v_p theta_p w
      = Ok self' w' /\
    Forall (fun rec => dom rec = sample_keys) (samples self') /\
    forall idx,
      (0 <= idx < len self' -> getitem self' idx = Raised (KeyError "input")) /\
      (- len self' <= idx < len self' ->
         getitem self' idx = Raised (KeyError "input")) /\
      (~ (- len self' <= idx < len self') -> getitem self' idx = Raised IndexError) /\
      (forall item, getitem self' idx <> Return item).
Proof.
  intros Hvalid.
  destruct (PowerFlowDataset_init_returns base_network n_samples max_it tol v_p
              theta_p w net0 Hvalid) as (self' & w' & Hrun & Hkeys).
  exists self', w'. split; [exact Hrun |]. split.
  - eapply List.Forall_impl; [| exact Hkeys]. cbn beta. tauto.
  - intros idx.
    assert (Hnone : Forall (fun rec : gmap string value => rec !! "input"%string = None)
                      (samples self'))
      by (eapply List.Forall_impl; [| exact Hkeys]; cbn beta; tauto).
    destruct (getitem_without_input self' idx Hnone) as [Hin Hout].
    split_and!.
    + intros Hidx. apply Hin. lia.
    + exact Hin.
    + exact Hout.
    + intros item Hitem.
      destruct (Z_le_dec (- len self') idx) as [H1 | H1];
        [destruct (Z_lt_dec idx (len self')) as [H2 | H2] |].
      * rewrite Hin in Hitem by lia. discriminate.
      * rewrite Hout in Hitem by lia. discriminate.
      * rewrite Hout in Hitem by lia. discriminate.
Qed.

(** *** The theorems above, run on the two-bus stand-in *)

(** On the stand-in the base case takes three iterations and every
    perturbed solve seven: each record holds three. *)
Lemma generate_samples_records_witness :
  exists self' w' new,
    @generate_samples (TwoBus.pandapower true) TwoBus.lowest
      TwoBus.dataset0 (TwoBus.world0 true) = Ok self' w' /\
    samples self' = new /\
    Forall (fun rec : gmap string value =>
              rec !! "iterations"%string = Some (VInt 3) /\
              exists o solved,
                TwoBus.solve true o TwoBus.unsolved = (solved, true) /\
                TwoBus.iterations solved = 7 /\
                rec !! "V_pred"%string = Some (VArray (TwoBus.vm_pu solved)))
           new.
Proof.
  destruct (@generate_samples_records (TwoBus.pandapower true) TwoBus.lowest
              TwoBus.dataset0 (TwoBus.world0 true) TwoBus.unsolved TwoBus.solved_base
              eq_refl eq_refl)
    as (self' & w' & new & Hrun & Hs & Hrec).
  exists self', w', new. split; [exact Hrun |]. split; [exact Hs |].
  eapply List.Forall_impl; [| exact Hrec]. cbn beta.
  intros rec (Hit & o & solved & v_ill & theta_ill & Hsolve & Hv & Ht & _ & _ & Hpred & _).
  split; [exact Hit |].
  exists o, solved. split; [exact Hsolve |]. split; [| exact Hpred].
  cbn in Hsolve. unfold TwoBus.solve in Hsolve. rewrite Hv, Ht in Hsolve.
  injection Hsolve as <-. reflexivity.
Defined.

Lemma generate_samples_counts_witness :
  exists self' w' base_call draw_solves,
    @generate_samples (TwoBus.pandapower true) TwoBus.lowest
      TwoBus.dataset0 (TwoBus.world0 true) = Ok self' w' /\
    samples self' = samples TwoBus.dataset0
      ++ @retained (TwoBus.pandapower true) TwoBus.lowest TwoBus.dataset0
           TwoBus.unsolved TwoBus.solved_base [1%R; 1%R] [0%R; 0%R] 0
           (PyList.range 0 3) /\
    stdout w' = stdout (TwoBus.world0 true)
      ++ @diagnostics (TwoBus.pandapower true) TwoBus.lowest TwoBus.dataset0
           TwoBus.unsolved [1%R; 1%R] [0%R; 0%R] 0 (PyList.range 0 3) /\
    solver_calls w' = solver_calls (TwoBus.world0 true) ++ base_call :: draw_solves /\
    PyList.len draw_solves = 3 /\
    (PyList.len (samples self') - PyList.len (samples TwoBus.dataset0))
    + (PyList.len (stdout w') - PyList.len (stdout (TwoBus.world0 true))) = 3.
Proof.
  apply (@generate_samples_counts (TwoBus.pandapower true) TwoBus.lowest
           TwoBus.dataset0 (TwoBus.world0 true) TwoBus.unsolved TwoBus.solved_base);
    [reflexivity | reflexivity | cbn; lia].
Defined.

Lemma sample_draw_discards_witness :
  exists w',
    @sample_draw (TwoBus.pandapower false) TwoBus.lowest 2%positive
      [1%R; 1%R] [0%R; 0%R] 0 TwoBus.dataset0 (TwoBus.world1 false)
      = Ok TwoBus.dataset0 w' /\
    stdout w' = ["Sample 0: Ill-conditioned case did not converge!"%string].
Proof.
  destruct (@sample_draw_discards (TwoBus.pandapower false) TwoBus.lowest 2%positive
              [1%R; 1%R] [0%R; 0%R] 0 TwoBus.dataset0 (TwoBus.world1 false)
              TwoBus.unsolved TwoBus.solved_base _ eq_refl eq_refl eq_refl)
    as (w' & Hrun & Hout & _).
  exists w'. split; [exact Hrun | exact Hout].
Defined.

Lemma lowest_draws_in_range : @draws_in_range TwoBus.lowest.
Proof. intros c low high k Hle. cbn. lra. Defined.

Lemma perturbed_guesses_within_witness :
  exists self' w' base_call draw_solves,
    @generate_samples (TwoBus.pandapower true) TwoBus.lowest
      TwoBus.dataset0 (TwoBus.world0 true) = Ok self' w' /\
    solver_calls w' = solver_calls (TwoBus.world0 true) ++ base_call :: draw_solves /\
    length draw_solves = length (PyList.range 0 3) /\
    Forall (fun call =>
              @guess_within TwoBus.dataset0 [1%R; 1%R] [0%R; 0%R] (snd call))
           draw_solves.
Proof.
  apply (@perturbed_guesses_within (TwoBus.pandapower true) TwoBus.lowest
           TwoBus.dataset0 (TwoBus.world0 true) TwoBus.unsolved TwoBus.solved_base).
  - exact lowest_draws_in_range.
  - cbn. lra.
  - cbn. lra.
  - reflexivity.
  - reflexivity.
Defined.

Lemma generate_samples_keeps_base_net_witness :
  nets (world_of (@generate_samples (TwoBus.pandapower true) TwoBus.lowest
                    TwoBus.dataset0 (TwoBus.world0 true))) !! 1%positive
  = Some TwoBus.unsolved.
Proof.
  destruct (@generate_samples_keeps_base_net (TwoBus.pandapower true) TwoBus.lowest
              TwoBus.dataset0 (TwoBus.world0 true)) as (_ & Hkeep & _).
  apply (Hkeep 1%positive TwoBus.unsolved). reflexivity.
Defined.

Lemma getitem_raises_witness :
  exists self' w',
    @PowerFlowDataset_init (TwoBus.pandapower true) TwoBus.lowest
      1%positive 3 50 (1 / 100000)%R (15 / 100)%R 30%R (TwoBus.world0 true)
      = Ok self' w' /\
    Forall (fun rec => dom rec = sample_keys) (samples self') /\
    forall idx,
      (0 <= idx < len self' ->
         @getitem TwoBus.torch self' idx = Raised (KeyError "input")) /\
      (- len self' <= idx < len self' ->
         @getitem TwoBus.torch self' idx = Raised (KeyError "input")) /\
      (~ (- len self' <= idx < len self') ->
         @getitem TwoBus.torch self' idx = Raised IndexError) /\
      (forall item, @getitem TwoBus.torch self' idx <> Return item).
Proof.
  apply (@getitem_raises (TwoBus.pandapower true) TwoBus.lowest TwoBus.torch
           1%positive 3 50 (1 / 100000)%R (15 / 100)%R 30%R (TwoBus.world0 true)
           TwoBus.unsolved).
  reflexivity.
Defined.

End SamplerClaims.

(** ** More on the grid topology *)

Module TopologyExtras.
Import PyList PyListFacts Topology TopologyFacts GridLines.

Lemma combine_app_eq {A B} (a c : list A) (b d : list B) :
  length a = length b -> combine (a ++ c) (b ++ d) = combine a b ++ combine c d.
Proof.
  revert b. induction a as [| x a IH]; intros [| y b] H; cbn in *; try lia.
  - reflexivity.
  - f_equal. apply IH. lia.
Qed.

Lemma combine_map_r {A B} (f : A -> B) (l : list A) :
  combine l (List.map f l) = List.map (fun x => (x, f x)) l.
Proof. induction l as [| x l IH]; cbn; [reflexivity | now rewrite IH]. Qed.

Lemma removelast_range lo hi : lo < hi -> removelast (range lo hi) = range lo (hi - 1).
Proof. intros H. now rewrite (range_snoc lo hi H), removelast_last. Qed.

Lemma tl_range lo hi : lo < hi -> tl (range lo hi) = range (lo + 1) hi.
Proof. intros H. now rewrite (range_cons lo hi H). Qed.

Lemma range_shift lo hi : range (lo + 1) (hi + 1) = List.map (fun b => b + 1) (range lo hi).
Proof.
  unfold range. rewrite map_map.
  replace (hi + 1 - (lo + 1)) with (hi - lo) by lia.
  apply map_ext. intros i. lia.
Qed.

(** The chain of a ring joins each bus to the next one. *)
Lemma chain_lines lo hi :
  lo < hi ->
  combine (removelast (range lo hi)) (tl (range lo hi))
  = List.map (fun b => (b, b + 1)) (range lo (hi - 1)).
Proof.
  intros H. rewrite removelast_range, tl_range by assumption.
  replace hi with (hi - 1 + 1) at 2 by lia.
  rewrite range_shift. apply combine_map_r.
Qed.

Lemma ring_added_pairs g n is_mesh :
  1 <= n ->
  exists lf lt,
    line_from (ring_added g n is_mesh) = line_from g ++ lf /\
    line_to (ring_added g n is_mesh) = line_to g ++ lt /\
    length lf = length lt /\
    combine lf lt = ring_lines (id_end g) (mv_bus g) n is_mesh.
Proof.
  intros Hn. unfold ring_added. cbn [line_from line_to].
  do 2 eexists. split; [reflexivity |]. split; [reflexivity |].
  pose proof (length_removelast_range (id_end g) (id_end g + n) ltac:(lia)) as H1.
  pose proof (length_tl_range (id_end g) (id_end g + n) ltac:(lia)) as H2.
  assert (Hlen : length (removelast (range (id_end g) (id_end g + n)))
                 = length (tl (range (id_end g) (id_end g + n))))
    by (unfold len in *; lia).
  split.
  - cbn [app length]. rewrite !length_app, Hlen. now destruct is_mesh.
  - cbn [app combine]. unfold ring_lines. f_equal.
    rewrite combine_app_eq by exact Hlen.
    rewrite chain_lines by lia.
    now destruct is_mesh.
Qed.

(** X1: a call of [add_ring_bus_from_to] that returns leaves [mv_bus] and
    every earlier entry of [line_from] and [line_to] in place, and appends
    to both lists the same number of entries: paired up, the feeder from
    the ring's first bus to the medium-voltage bus, one line from each ring
    bus to the next, and for a mesh the line from the first to the last
    bus.  Lists of equal length before are of equal length after. *)
Theorem add_ring_bus_from_to_appends g n_ring_num is_mesh g' :
  add_ring_bus_from_to g n_ring_num is_mesh = Return g' ->
  mv_bus g' = mv_bus g /\
  (exists lf lt,
     line_from g' = line_from g ++ lf /\
     line_to g' = line_to g ++ lt /\
     length lf = length lt /\
     combine lf lt = ring_lines (id_end g) (mv_bus g) n_ring_num is_mesh) /\
  (length (line_from g) = length (line_to g) ->
   length (line_from g') = length (line_to g') /\
   lines g' = lines g ++ ring_lines (id_end g) (mv_bus g) n_ring_num is_mesh).
Proof.
  intros H. apply add_ring_Return in H as [Hn ->].
  split; [reflexivity |].
  destruct (ring_added_pairs g n_ring_num is_mesh Hn) as (lf & lt & Hf & Ht & Hlen & Hc).
  split; [now exists lf, lt |].
  intros Heq. unfold lines. rewrite Hf, Ht. split.
  - rewrite !length_app. lia.
  - rewrite combine_app_eq by exact Heq. now rewrite Hc.
Qed.

Lemma add_ring_bus_from_to_appends_witness :
  lines (ring_added (mkGridData 10 0 [] [] []) 4 true)
  = [(10, 0); (10, 11); (11, 12); (12, 13); (10, 13)].
Proof.
  destruct (add_ring_bus_from_to_appends (mkGridData 10 0 [] [] []) 4 true
              (ring_added (mkGridData 10 0 [] [] []) 4 true) eq_refl)
    as (_ & _ & Hlines).
  destruct (Hlines eq_refl) as [_ Heq]. exact Heq.
Defined.

Lemma ring_added_endpoints g n is_mesh :
  1 <= n -> endpoints_known g -> endpoints_known (ring_added g n is_mesh).
Proof.
  intros Hn [Hfrom Hto]. unfold endpoints_known, ring_added.
  cbn [line_from line_to buses mv_bus].
  assert (Hring : forall b, id_end g <= b < id_end g + n ->
            In b (buses g ++ range (id_end g) (id_end g + n)))
    by (intros b Hb; apply in_or_app; right; now apply In_range).
  rewrite removelast_range, tl_range by lia.
  split.
  - rewrite !Forall_app. split_and!.
    + eapply List.Forall_impl; [| exact Hfrom]. cbn beta. intros b Hb.
      apply in_or_app. now left.
    + constructor; [apply Hring; lia | constructor].
    + apply List.Forall_forall. intros b Hb. apply In_range in Hb. apply Hring. lia.
    + destruct is_mesh; constructor; [apply Hring; lia | constructor].
  - rewrite !Forall_app. split_and!.
    + eapply List.Forall_impl; [| exact Hto]. cbn beta. intros b [Hb | Hb].
      * now left.
      * right. apply in_or_app. now left.
    + constructor; [now left | constructor].
    + apply List.Forall_forall. intros b Hb. apply In_range in Hb.
      right. apply Hring. lia.
    + destruct is_mesh; constructor; [right; apply Hring; lia | constructor].
Qed.

(** X2: [add_ring_bus_from_to] keeps the topology closed: if every line
    starts at an allocated bus and ends at the medium-voltage bus or at an
    allocated bus, the same holds after a call that returns. *)
Theorem add_ring_bus_from_to_endpoints g n_ring_num is_mesh g' :
  add_ring_bus_from_to g n_ring_num is_mesh = Return g' ->
  endpoints_known g -> endpoints_known g'.
Proof.
  intros H Hknown. apply add_ring_Return in H as [Hn ->].
  now apply ring_added_endpoints.
Qed.

Lemma add_ring_bus_from_to_endpoints_witness :
  endpoints_known (ring_added (mkGridData 10 0 [] [] []) 4 true).
Proof.
  apply (add_ring_bus_from_to_endpoints (mkGridData 10 0 [] [] []) 4 true _ eq_refl).
  split; constructor.
Defined.

(** The loop over the rings, from a dictionary [g]: the buses of all rings
    are one run of consecutive identifiers. *)
Lemma add_rings_buses n rings :
  1 <= n -> forall g g',
    add_rings g n rings = Return g' ->
    mv_bus g' = mv_bus g /\
    id_end g' = id_end g + len rings * n /\
    buses g' = buses g ++ range (id_end g) (id_end g + len rings * n) /\
    (endpoints_known g -> endpoints_known g') /\
    (length (line_from g) = length (line_to g) ->
     length (line_from g') = length (line_to g')).
Proof.
  intros Hn. induction rings as [| [i is_mesh] rest IH]; intros g g' H.
  - cbn [add_rings] in H. injection H as <-.
    change (len (@nil (Z * bool))) with 0. rewrite Z.mul_0_l, Z.add_0_r.
    rewrite range_empty by lia. rewrite app_nil_r. tauto.
  - cbn [add_rings] in H. rewrite add_ring_returns in H by assumption.
    cbn [obind] in H. apply IH in H as (Hmv & Hend & Hbuses & Hknown & Hlen).
    assert (Hl : len ((i, is_mesh) :: rest) = 1 + len rest)
      by (unfold len; cbn [length]; lia).
    rewrite Hl.
    unfold ring_added in Hmv, Hend, Hbuses. cbn [mv_bus id_end buses] in *.
    split_and!.
    + exact Hmv.
    + lia.
    + rewrite Hbuses, <- app_assoc. f_equal.
      rewrite (range_split (id_end g) (id_end g + n) (id_end g + (1 + len rest) * n)).
      * f_equal. f_equal. lia.
      * unfold len. nia.
    + intros Hk. apply Hknown. now apply ring_added_endpoints.
    + intros Heq. apply Hlen.
      destruct (ring_added_pairs g n is_mesh Hn) as (lf & lt & -> & -> & Hlf & _).
      rewrite !length_app. lia.
Qed.

(** What the loop of [create_grid_topo] leaves, from the empty
    dictionary. *)
Lemma create_grid_topo_core n_rings n_ring_num n_meshes g :
  create_grid_topo_with n_rings n_ring_num n_meshes = Return g ->
  mv_bus g = 0 /\ id_end g = 10 + Z.max 0 n_rings * n_ring_num /\
  buses g = range 10 (10 + Z.max 0 n_rings * n_ring_num) /\
  length (line_from g) = length (line_to g) /\ endpoints_known g /\
  (n_rings <= 0 \/ 1 <= n_ring_num).
Proof.
  unfold create_grid_topo_with. fold (built_rings n_rings n_meshes). intros H.
  destruct (TopologyClaims.built_rings_counts n_rings n_meshes) as [Hlen _].
  destruct (built_rings n_rings n_meshes) as [| [i is_mesh] rest] eqn:E.
  - cbn [add_rings] in H. injection H as <-. cbn [mv_bus id_end buses line_from line_to].
    change (len (@nil (Z * bool))) with 0 in Hlen.
    rewrite <- Hlen, Z.mul_0_l, Z.add_0_r. rewrite range_empty by lia.
    split_and!; try reflexivity; [split; constructor | lia].
  - assert (Hn : 1 <= n_ring_num).
    { cbn [add_rings] in H.
      destruct (add_ring_bus_from_to _ n_ring_num is_mesh) as [g1 | e] eqn:E1;
        [| discriminate].
      now apply add_ring_Return in E1. }
    apply (add_rings_buses n_ring_num _ Hn) in H
      as (Hmv & Hend & Hbuses & Hknown & Hlines).
    cbn [mv_bus id_end buses line_from line_to app] in *.
    rewrite Hlen in *.
    split_and!; try assumption.
    + now apply Hlines.
    + apply Hknown. split; constructor.
    + now right.
Qed.

(** X3: every topology that [create_grid_topo] builds, for any ring count,
    bus count per ring and mesh count, has the medium-voltage bus 0 and
    the buses 10, 11, ... in order, one run of consecutive identifiers
    over all rings with [id_end] one past the last; no identifier occurs
    twice, bus 0 is not among them, [line_from] and [line_to] are equally
    long, and every line joins buses of the topology. *)
Theorem create_grid_topo_buses n_rings n_ring_num n_meshes g :
  create_grid_topo_with n_rings n_ring_num n_meshes = Return g ->
  mv_bus g = 0 /\
  id_end g = 10 + Z.max 0 n_rings * n_ring_num /\
  buses g = range 10 (10 + Z.max 0 n_rings * n_ring_num) /\
  len (buses g) = Z.max 0 n_rings * Z.max 0 n_ring_num /\
  List.NoDup (buses g) /\
  ~ In (mv_bus g) (buses g) /\
  length (line_from g) = length (line_to g) /\
  endpoints_known g.
Proof.
  intros H.
  destruct (create_grid_topo_core n_rings n_ring_num n_meshes g H)
    as (Hmv & Hend & Hbuses & Hlines & Hknown & Hsign).
  split_and!; try assumption.
  - rewrite Hbuses, len_range. destruct Hsign as [Hr | Hn]; nia.
  - rewrite Hbuses. apply NoDup_range.
  - rewrite Hmv, Hbuses, In_range. lia.
Qed.

Lemma create_grid_topo_buses_witness :
  buses (mkGridData 18 0 [10; 10; 11; 12; 10; 14; 14; 15; 16]
           [0; 11; 12; 13; 13; 0; 15; 16; 17] [10; 11; 12; 13; 14; 15; 16; 17])
  = range 10 (10 + Z.max 0 2 * 4).
Proof.
  destruct (create_grid_topo_buses 2 4 1 _ eq_refl) as (_ & _ & Hbuses & _).
  exact Hbuses.
Defined.

(** X4: [create_grid_topo] raises, and then [IndexError], exactly when it
    has a ring to build and the bus count per ring is zero or negative; the
    mesh count plays no part.  Without a ring to build it returns the empty
    topology. *)
Theorem create_grid_topo_raises n_rings n_ring_num n_meshes :
  (create_grid_topo_with n_rings n_ring_num n_meshes = Raised IndexError
   <-> 1 <= n_rings /\ n_ring_num <= 0) /\
  (forall e, create_grid_topo_with n_rings n_ring_num n_meshes = Raised e ->
             e = IndexError) /\
  (n_rings <= 0 ->
   create_grid_topo_with n_rings n_ring_num n_meshes
   = Return (mkGridData 10 0 [] [] [])).
Proof.
  unfold create_grid_topo_with. fold (built_rings n_rings n_meshes).
  destruct (TopologyClaims.built_rings_counts n_rings n_meshes) as [Hlen _].
  destruct (built_rings n_rings n_meshes) as [| [i is_mesh] rest] eqn:E.
  - change (len (@nil (Z * bool))) with 0 in Hlen. cbn [add_rings].
    split_and!.
    + split; [discriminate | lia].
    + discriminate.
    + reflexivity.
  - assert (Hr : 1 <= n_rings) by (unfold len in Hlen; cbn [length] in Hlen; lia).
    destruct (Z.le_gt_cases 1 n_ring_num) as [Hn | Hn].
    + destruct (add_rings_lines n_ring_num ((i, is_mesh) :: rest) Hn
                  (mkGridData 10 0 [] [] [])) as (g & -> & _).
      split_and!.
      * split; [discriminate | lia].
      * discriminate.
      * lia.
    + cbn [add_rings]. rewrite add_ring_raises by lia. cbn [obind].
      split_and!.
      * split; [lia | reflexivity].
      * now intros e [= <-].
      * lia.
Qed.

Lemma create_grid_topo_raises_witness :
  create_grid_topo_with 2 0 1 = Raised IndexError /\
  create_grid_topo_with 0 4 1 = Return (mkGridData 10 0 [] [] []).
Proof.
  destruct (create_grid_topo_raises 2 0 1) as ([_ Hraise] & _).
  destruct (create_grid_topo_raises 0 4 1) as (_ & _ & Hempty).
  split.
  - apply Hraise. lia.
  - apply Hempty. lia.
Defined.

Lemma In_ring_lines first mv n is_mesh a b :
  In (a, b) (ring_lines first mv n is_mesh) <->
  (a = first /\ b = mv) \/
  (first <= a < first + n - 1 /\ b = a + 1) \/
  (is_mesh = true /\ a = first /\ b = first + n - 1).
Proof.
  unfold ring_lines. cbn [In]. rewrite in_app_iff, in_map_iff. split.
  - intros [H | [(x & H & Hx) | H]].
    + injection H as <- <-. now left.
    + injection H as <- <-. apply In_range in Hx. right. left. lia.
    + destruct is_mesh; [| destruct H].
      destruct H as [H | []]. injection H as <- <-. right. right. auto.
  - intros [[-> ->] | [[Ha ->] | (Hm & -> & ->)]].
    + now left.
    + right. left. exists a. split; [reflexivity | apply In_range; lia].
    + right. right. rewrite Hm. now left.
Qed.

Lemma ring_lines_self_loop first mv n is_mesh :
  1 <= n -> ~ (first <= mv < first + n) ->
  (exists b, In (b, b) (ring_lines first mv n is_mesh)) <-> n = 1 /\ is_mesh = true.
Proof.
  intros n_pos mv_outside. split.
  - intros (b & Hb). apply In_ring_lines in Hb as [[-> Hmv] | [[_ Hb] | (Hm & -> & Hb)]].
    + exfalso. apply mv_outside. lia.
    + lia.
    + split; [lia | exact Hm].
  - intros [-> ->]. exists first. apply In_ring_lines. right. right.
    split_and!; [reflexivity | reflexivity | lia].
Qed.

Lemma chain_NoDup lo hi : List.NoDup (List.map (fun b => (b, b + 1)) (range lo hi)).
Proof.
  apply Finite.Injective_map_NoDup; [| apply NoDup_range].
  intros a b [= H]. exact H.
Qed.

Lemma ring_lines_NoDup first mv n is_mesh :
  1 <= n -> ~ (first <= mv < first + n) ->
  List.NoDup (ring_lines first mv n is_mesh) <-> ~ (n = 2 /\ is_mesh = true).
Proof.
  intros n_pos mv_outside. unfold ring_lines. split.
  - intros Hnd [-> ->].
    rewrite (range_cons first (first + 2 - 1)) in Hnd by lia.
    rewrite range_empty in Hnd by lia. cbn in Hnd.
    replace (first + 2 - 1) with (first + 1) in Hnd by lia.
    inversion Hnd as [| ? ? _ Hnd']. inversion Hnd' as [| ? ? Hin _].
    apply Hin. now left.
  - intros Hne. constructor.
    + rewrite in_app_iff, in_map_iff. intros [(x & H & Hx) | H].
      * injection H as -> Hmv. apply In_range in Hx. apply mv_outside. lia.
      * destruct is_mesh; [| destruct H]. destruct H as [H | []].
        injection H as Hmv. apply mv_outside. lia.
    + apply List.NoDup_app.
      * apply chain_NoDup.
      * destruct is_mesh; repeat constructor. intros [].
      * intros [a b] Hab Hin. destruct is_mesh; [| destruct Hin].
        destruct Hin as [Hin | []]. injection Hin as <- <-.
        apply in_map_iff in Hab as (x & H & Hx). injection H as -> Hb.
        apply In_range in Hx. apply Hne. split; [lia | reflexivity].
Qed.

(** X5: the lines that one call appends, when the medium-voltage bus is
    not one of the ring's buses.  A meshed ring of one bus gets a closing
    line from that bus to itself, and no other ring gets a line from a bus
    to itself; a meshed ring of two buses gets its one chain line a second
    time as closing line, and in every other ring the appended lines are
    pairwise different. *)
Theorem add_ring_bus_from_to_small_rings g n_ring_num is_mesh g' :
  add_ring_bus_from_to g n_ring_num is_mesh = Return g' ->
  length (line_from g) = length (line_to g) ->
  ~ (id_end g <= mv_bus g < id_end g + n_ring_num) ->
  exists new,
    lines g' = lines g ++ new /\
    ((exists b, In (b, b) new) <-> n_ring_num = 1 /\ is_mesh = true) /\
    (List.NoDup new <-> ~ (n_ring_num = 2 /\ is_mesh = true)).
Proof.
  intros H Hlen Hmv. apply add_ring_Return in H as [Hn ->].
  exists (ring_lines (id_end g) (mv_bus g) n_ring_num is_mesh).
  destruct (ring_added_pairs g n_ring_num is_mesh Hn) as (lf & lt & Hf & Ht & _ & Hc).
  split_and!.
  - unfold lines. rewrite Hf, Ht, combine_app_eq by exact Hlen. now rewrite Hc.
  - now apply ring_lines_self_loop.
  - now apply ring_lines_NoDup.
Qed.

Lemma add_ring_bus_from_to_small_rings_witness :
  exists new,
    lines (ring_added (mkGridData 10 0 [] [] []) 1 true) = [] ++ new /\
    ((exists b, In (b, b) new) <-> 1 = 1 /\ true = true) /\
    (List.NoDup new <-> ~ (1 = 2 /\ true = true)).
Proof.
  apply (add_ring_bus_from_to_small_rings (mkGridData 10 0 [] [] []) 1 true
           (ring_added (mkGridData 10 0 [] [] []) 1 true) eq_refl eq_refl).
  cbn. lia.
Defined.

Lemma reach_more ls ls' a b :
  (forall p, In p ls -> In p ls') -> reach ls a b -> reach ls' a b.
Proof.
  intros Hsub H. induction H as [a | a b c Hab _ IH].
  - constructor.
  - apply (reach_line ls' a b c); [| exact IH].
    destruct Hab as [Hab | Hab]; [left | right]; now apply Hsub.
Qed.

(** Each bus of a ring is joined to the medium-voltage bus by the ring's
    own lines: along the chain to the first bus, then by the feeder. *)
Lemma ring_reaches first mv n is_mesh k :
  0 <= k < n -> reach (ring_lines first mv n is_mesh) (first + k) mv.
Proof.
  intros Hk. destruct Hk as [Hk0 Hkn]. revert Hkn.
  pattern k. apply natlike_ind; [| | exact Hk0].
  - intros Hn. rewrite Z.add_0_r.
    apply (reach_line _ first mv mv); [| constructor].
    left. apply In_ring_lines. now left.
  - intros j Hj IH Hlt.
    apply (reach_line _ (first + Z.succ j) (first + j) mv); [| apply IH; lia].
    right. apply In_ring_lines. right. left. lia.
Qed.

Lemma lines_ring_added g n is_mesh :
  1 <= n -> length (line_from g) = length (line_to g) ->
  lines (ring_added g n is_mesh)
  = lines g ++ ring_lines (id_end g) (mv_bus g) n is_mesh.
Proof.
  intros Hn Hlen.
  destruct (ring_added_pairs g n is_mesh Hn) as (lf & lt & Hf & Ht & _ & Hc).
  unfold lines. rewrite Hf, Ht, combine_app_eq by exact Hlen. now rewrite Hc.
Qed.

Lemma ring_added_connected g n is_mesh :
  1 <= n -> length (line_from g) = length (line_to g) ->
  connected g -> connected (ring_added g n is_mesh).
Proof.
  intros Hn Hlen Hconn b Hb.
  rewrite lines_ring_added by assumption.
  unfold ring_added in Hb |- *. cbn [buses mv_bus] in *.
  apply in_app_or in Hb as [Hb | Hb].
  - eapply reach_more; [| apply Hconn, Hb]. intros p Hp. apply in_or_app. now left.
  - apply In_range in Hb.
    eapply reach_more with (ls := ring_lines (id_end g) (mv_bus g) n is_mesh).
    + intros p Hp. apply in_or_app. now right.
    + replace b with (id_end g + (b - id_end g)) by lia.
      apply ring_reaches. lia.
Qed.

Lemma add_rings_connected n rings :
  1 <= n -> forall g g',
    add_rings g n rings = Return g' ->
    length (line_from g) = length (line_to g) ->
    connected g -> connected g'.
Proof.
  intros Hn. induction rings as [| [i is_mesh] rest IH]; intros g g' H Hlen Hconn.
  - cbn [add_rings] in H. now injection H as <-.
  - cbn [add_rings] in H. rewrite add_ring_returns in H by assumption.
    cbn [obind] in H. apply (IH _ _ H).
    + destruct (ring_added_pairs g n is_mesh Hn) as (lf & lt & -> & -> & Hl & _).
      rewrite !length_app. lia.
    + now apply ring_added_connected.
Qed.

(** X18: every topology that [create_grid_topo] builds is connected:
    from each of its buses a path of lines leads to the medium-voltage
    bus. *)
Theorem create_grid_topo_connected n_rings n_ring_num n_meshes g :
  create_grid_topo_with n_rings n_ring_num n_meshes = Return g ->
  forall b, In b (buses g) -> reach (lines g) b (mv_bus g).
Proof.
  unfold create_grid_topo_with. fold (built_rings n_rings n_meshes). intros H.
  destruct (built_rings n_rings n_meshes) as [| [i is_mesh] rest] eqn:E.
  - cbn [add_rings] in H. injection H as <-. intros b [].
  - assert (Hn : 1 <= n_ring_num).
    { cbn [add_rings] in H.
      destruct (add_ring_bus_from_to _ n_ring_num is_mesh) as [g1 | e] eqn:E1;
        [| discriminate].
      now apply add_ring_Return in E1. }
    apply (add_rings_connected n_ring_num _ Hn _ _ H); [reflexivity |].
    intros b [].
Qed.

Lemma create_grid_topo_connected_witness :
  reach [(10, 0); (10, 11); (11, 12); (12, 13); (10, 13);
         (14, 0); (14, 15); (15, 16); (16, 17)] 17 0.
Proof.
  apply (create_grid_topo_connected 2 4 1
           (mkGridData 18 0 [10; 10; 11; 12; 10; 14; 14; 15; 16]
              [0; 11; 12; 13; 13; 0; 15; 16; 17] [10; 11; 12; 13; 14; 15; 16; 17])
           eq_refl 17).
  cbn. tauto.
Defined.

(** X6: the arguments of [create_pp_grid]'s calls fit together, for any
    ring count, bus count per ring and mesh count for which the topology is
    built: the calls are the eight of the source in order; [nr_buses] is
    the number of indices given; the indices of all buses created (0, 1
    and the ring buses) are pairwise different; [from_buses], [to_buses]
    and [length_km] are equally long, with every line starting at a ring
    bus and ending at bus 0 or a ring bus; and there is one load of 0.001
    per ring bus. *)
Theorem create_pp_grid_arguments n_rings n_ring_num n_meshes calls :
  create_pp_grid_with n_rings n_ring_num n_meshes = Return calls ->
  exists g,
    create_grid_topo_with n_rings n_ring_num n_meshes = Return g /\
    calls =
      [create_empty_network;
       create_bus (4 / 10)%R 0;
       create_bus (4 / 10)%R 1;
       create_line_from_parameters 0 1 1%R (1 / 100)%R (1 / 100)%R (1 / 100)%R 0%R 100%R;
       create_ext_grid 0 1%R 0%R;
       create_buses (len (buses g)) (4 / 10)%R (buses g);
       create_lines (line_from g) (line_to g)
         (py_repeat 1%R (len (line_from g))) "NAYY 4x150 SE";
       create_loads (buses g) (py_repeat (1 / 1000)%R (len (buses g)))] /\
    List.NoDup (0 :: 1 :: buses g) /\
    length (line_to g) = length (line_from g) /\
    length (py_repeat 1%R (len (line_from g))) = length (line_from g) /\
    Forall (fun b => In b (buses g)) (line_from g) /\
    Forall (fun b => In b (0 :: buses g)) (line_to g) /\
    length (py_repeat (1 / 1000)%R (len (buses g))) = length (buses g).
Proof.
  unfold create_pp_grid_with. intros H.
  destruct (create_grid_topo_with n_rings n_ring_num n_meshes) as [g | e] eqn:E;
    [| discriminate].
  cbn [obind] in H. injection H as <-.
  exists g. split; [reflexivity |]. split; [reflexivity |].
  destruct (create_grid_topo_core n_rings n_ring_num n_meshes g E)
    as (Hmv & _ & Hbuses & Hlen & [Hfrom Hto] & _).
  unfold py_repeat, len. rewrite !repeat_length, !Nat2Z.id.
  split_and!; try reflexivity.
  - constructor.
    + cbn [In]. rewrite Hbuses, In_range. lia.
    + constructor; [| rewrite Hbuses; apply NoDup_range].
      rewrite Hbuses, In_range. lia.
  - now symmetry.
  - exact Hfrom.
  - eapply List.Forall_impl; [| exact Hto]. cbn beta. rewrite Hmv.
    intros b [-> | Hb]; [now left | now right].
Qed.

Lemma create_pp_grid_arguments_witness :
  exists calls g,
    create_pp_grid = Return calls /\
    create_grid_topo_with 2 4 1 = Return g /\
    List.NoDup (0 :: 1 :: buses g) /\
    length (line_to g) = length (line_from g).
Proof.
  destruct (create_pp_grid_arguments 2 4 1 _ eq_refl)
    as (g & Hg & _ & Hnd & Hlen & _).
  eexists. exists g. split; [reflexivity |]. split; [exact Hg |].
  split; [exact Hnd | exact Hlen].
Defined.

End TopologyExtras.

(** ** More on the residual *)

Module ResidualExtras.
Import Numpy Residual ResidualFacts.

Lemma compute_residual_by_bus n V_mag V_ang Ybus S :
  well_shaped n V_mag V_ang Ybus S ->
  compute_residual V_mag V_ang Ybus S = mismatch_spec V_mag V_ang Ybus S.
Proof.
  intros Hshape. unfold compute_residual, mismatch_spec.
  rewrite PyListFacts.slice_from_1. fold (complex_v V_mag V_ang).
  rewrite (residual_all_buses n V_mag V_ang Ybus S Hshape), tl_map_seq.
  destruct Hshape as (-> & _). reflexivity.
Qed.

Lemma nth_S_tl {A} (l : list A) k d : nth (Datatypes.S k) l d = nth k (tl l) d.
Proof. destruct l; [now destruct k | reflexivity]. Qed.

(** X7: the residual does not depend on the reference bus's row of the
    admittance matrix nor on its specified injection: two calls with the
    same voltages whose matrices agree from row 1 on and whose injection
    vectors agree from entry 1 on return the same vector. *)
Theorem compute_residual_ignores_reference_row n V_mag V_ang Ybus Ybus' S S' :
  well_shaped n V_mag V_ang Ybus S ->
  well_shaped n V_mag V_ang Ybus' S' ->
  tl Ybus = tl Ybus' -> tl S = tl S' ->
  compute_residual V_mag V_ang Ybus S = compute_residual V_mag V_ang Ybus' S'.
Proof.
  intros Hshape Hshape' HY HS.
  rewrite (compute_residual_by_bus n _ _ _ _ Hshape).
  rewrite (compute_residual_by_bus n _ _ _ _ Hshape').
  unfold mismatch_spec. apply map_ext_in. intros k Hk. apply in_seq in Hk.
  destruct k as [| k]; [lia |].
  unfold mismatch_at, current_at. rewrite !nth_S_tl, HY, HS. reflexivity.
Qed.

Lemma compute_residual_ignores_reference_row_witness :
  compute_residual [1%R; 1%R] [0%R; 0%R] TwoBus.Ybus TwoBus.Sbus
  = compute_residual [1%R; 1%R] [0%R; 0%R]
      [[RtoC 5; RtoC 7]; [RtoC (-1); RtoC 1]] [RtoC 9; C0].
Proof.
  apply (compute_residual_ignores_reference_row 2);
    try reflexivity;
    unfold well_shaped, TwoBus.Ybus, TwoBus.Sbus; repeat split; repeat constructor.
Defined.

Lemma Cexp_turns a (k : nat) :
  Cexp (Cmul (RtoC (deg2rad (a + 360 * INR k))) Ci) = Cexp (Cmul (RtoC (deg2rad a)) Ci).
Proof.
  unfold Cexp, Cmul, RtoC, Ci, deg2rad. cbn [fst snd].
  replace ((a + 360 * INR k) * (PI / 180) * 1 + 0 * 0)%R
    with (a * (PI / 180) * 1 + 0 * 0 + 2 * INR k * PI)%R by field.
  rewrite cos_period, sin_period.
  replace ((a + 360 * INR k) * (PI / 180) * 0 - 0 * 1)%R
    with (a * (PI / 180) * 0 - 0 * 1)%R by ring.
  reflexivity.
Qed.

Lemma map_deg2rad_turns V_mag V_ang (turns : list nat) :
  length turns = length V_ang ->
  complex_v V_mag (zip_with (fun a k => (a + 360 * INR k)%R) V_ang turns)
  = complex_v V_mag V_ang.
Proof.
  unfold complex_v. revert V_mag turns.
  induction V_ang as [| a V_ang IH]; intros V_mag [| k turns] Hlen;
    cbn in Hlen; try lia; [reflexivity |].
  destruct V_mag as [| m V_mag]; [reflexivity |].
  cbn [zip_with List.map]. rewrite Cexp_turns. f_equal. apply IH. lia.
Qed.

(** X8: the angles are taken in degrees: adding whole turns of 360 to any
    of the angles, each its own number of turns, does not change the
    residual. *)
Theorem compute_residual_whole_turns V_mag V_ang (turns : list nat) Ybus S :
  length turns = length V_ang ->
  compute_residual V_mag (zip_with (fun a k => (a + 360 * INR k)%R) V_ang turns) Ybus S
  = compute_residual V_mag V_ang Ybus S.
Proof.
  intros Hlen. unfold compute_residual.
  fold (complex_v V_mag (zip_with (fun a k => (a + 360 * INR k)%R) V_ang turns)).
  fold (complex_v V_mag V_ang).
  now rewrite map_deg2rad_turns.
Qed.

Lemma compute_residual_whole_turns_witness :
  compute_residual [1%R; 1%R] [(0 + 360 * INR 1)%R; (0 + 360 * INR 2)%R]
    TwoBus.Ybus TwoBus.Sbus
  = compute_residual [1%R; 1%R] [0%R; 0%R] TwoBus.Ybus TwoBus.Sbus.
Proof.
  apply (compute_residual_whole_turns [1%R; 1%R] [0%R; 0%R] [1%nat; 2%nat]).
  reflexivity.
Defined.

(** A common rotation of all voltages. *)
Lemma voltage_rotated V_mag V_ang delta j :
  (j < length V_ang)%nat ->
  voltage V_mag (List.map (fun a => (a + delta)%R) V_ang) j
  = Cmul (voltage V_mag V_ang j) (cos (deg2rad delta), sin (deg2rad delta)).
Proof.
  intros Hj. rewrite !ResidualClaims.voltage_polar.
  rewrite (nth_map_in _ _ _ 0%R) by assumption.
  replace (deg2rad (nth j V_ang 0%R + delta))
    with (deg2rad (nth j V_ang 0%R) + deg2rad delta)%R by (unfold deg2rad; ring).
  rewrite cos_plus, sin_plus. apply C_eq; cbn; ring.
Qed.

Lemma Csum_scaled {A} (f : A -> C) (u : C) (l : list A) :
  Csum (List.map (fun x => Cmul (f x) u) l) = Cmul (Csum (List.map f l)) u.
Proof.
  unfold Csum. induction l as [| x l IH]; cbn [List.map fold_right].
  - symmetry. apply Cmul_0_l.
  - rewrite IH. apply C_eq; cbn; ring.
Qed.

Lemma rotation_cancels (v c u : C) :
  (fst u * fst u + snd u * snd u)%R = 1%R ->
  Cmul (Cmul v u) (conj (Cmul c u)) = Cmul v (conj c).
Proof.
  intros Hu. destruct v as [v1 v2], c as [c1 c2], u as [u1 u2]. cbn [fst snd] in Hu.
  apply C_eq; cbn.
  - replace ((v1 * u1 - v2 * u2) * (c1 * u1 - c2 * u2)
             - (v1 * u2 + v2 * u1) * - (c1 * u2 + c2 * u1))%R
      with ((v1 * c1 + v2 * c2) * (u1 * u1 + u2 * u2))%R by ring.
    rewrite Hu. ring.
  - replace ((v1 * u1 - v2 * u2) * - (c1 * u2 + c2 * u1)
             + (v1 * u2 + v2 * u1) * (c1 * u1 - c2 * u2))%R
      with ((v2 * c1 - v1 * c2) * (u1 * u1 + u2 * u2))%R by ring.
    rewrite Hu. ring.
Qed.

(** X9: the residual depends on the angles only through their
    differences: adding one and the same angle to the angle of every bus
    does not change it. *)
Theorem compute_residual_common_shift n V_mag V_ang Ybus S (delta : R) :
  well_shaped n V_mag V_ang Ybus S ->
  compute_residual V_mag (List.map (fun a => (a + delta)%R) V_ang) Ybus S
  = compute_residual V_mag V_ang Ybus S.
Proof.
  intros Hshape.
  assert (Hshape' : well_shaped n V_mag (List.map (fun a => (a + delta)%R) V_ang) Ybus S).
  { destruct Hshape as (Hm & Ha & Hrest). split; [exact Hm |].
    split; [now rewrite length_map | exact Hrest]. }
  rewrite (compute_residual_by_bus n _ _ _ _ Hshape).
  rewrite (compute_residual_by_bus n _ _ _ _ Hshape').
  destruct Hshape as (Hm & Ha & _).
  unfold mismatch_spec. apply map_ext_in. intros k Hk. apply in_seq in Hk.
  unfold mismatch_at, current_at. f_equal.
  rewrite voltage_rotated by lia.
  rewrite (map_ext_in
             (fun j => Cmul (nth j (nth k Ybus []) C0)
                         (voltage V_mag (List.map (fun a => (a + delta)%R) V_ang) j))
             (fun j => Cmul (Cmul (nth j (nth k Ybus []) C0) (voltage V_mag V_ang j))
                         (cos (deg2rad delta), sin (deg2rad delta)))).
  - rewrite Csum_scaled. apply rotation_cancels. cbn [fst snd].
    pose proof (sin2_cos2 (deg2rad delta)) as H. unfold Rsqr in H. lra.
  - intros j Hj. apply in_seq in Hj. rewrite voltage_rotated by lia.
    apply C_eq; cbn; ring.
Qed.

Lemma compute_residual_common_shift_witness :
  compute_residual [1%R; 1%R] (List.map (fun a => (a + 30)%R) [0%R; 0%R])
    TwoBus.Ybus TwoBus.Sbus
  = compute_residual [1%R; 1%R] [0%R; 0%R] TwoBus.Ybus TwoBus.Sbus.
Proof.
  apply (compute_residual_common_shift 2).
  unfold well_shaped, TwoBus.Ybus, TwoBus.Sbus. repeat split; repeat constructor.
Defined.

End ResidualExtras.

(** ** More on the sampler *)

Module SamplerExtras.
Import Numpy Residual Sampler SamplerFacts Flattening.

Section WithSolver.
Context `{PP : PandaPower} `{RNG : NumpyRandom}.

(** [generate_samples] on a converging base case, step by step: the copy,
    the base solve, the loop, the dump. *)
Lemma generate_samples_steps self w net0 base :
  nets w !! base_net self = Some net0 ->
  pp_runpp base_options net0 = (base, true) ->
  generate_samples self w
  = match for_each (PyList.range 0 (num_samples self))
            (sample_draw (fresh (dom (nets w))) (res_bus_vm_pu base)
               (res_bus_va_degree base))
            self
            (mkWorld (<[fresh (dom (nets w)) := base]>
                        (<[fresh (dom (nets w)) := net0]> (nets w)))
               (rng_calls w)
               (solver_calls w ++ [(fresh (dom (nets w)), base_options)])
               (stdout w) (files w))
    with
    | Ok self' w' =>
        Ok self' (mkWorld (nets w') (rng_calls w') (solver_calls w') (stdout w')
                    (<["data.pkl"%string := samples self']> (files w')))
    | Raise e w' => Raise e w'
    end.
Proof.
  intros Hvalid Hsolve.
  unfold generate_samples, bind, deepcopy. rewrite Hvalid.
  unfold try_except_not_converged, bind, runpp.
  cbn [nets rng_calls solver_calls stdout files].
  rewrite lookup_insert_eq, Hsolve.
  unfold ret at 1. cbn [negb]. unfold read_net at 1.
  cbn [nets]. rewrite lookup_insert_eq.
  destruct (for_each _ _ _ _); reflexivity.
Qed.

(** X10: when the base case does not converge, [generate_samples] returns
    after that one solver call: the dataset object is as before (no
    sample), nothing is printed, no random number is drawn, and no file is
    written, so [data.pkl] keeps whatever it held; the network objects
    that existed are unchanged. *)
Theorem generate_samples_base_failure self w net0 failed :
  nets w !! base_net self = Some net0 ->
  pp_runpp base_options net0 = (failed, false) ->
  exists w',
    generate_samples self w = Ok self w' /\
    stdout w' = stdout w /\
    rng_calls w' = rng_calls w /\
    files w' = files w /\
    solver_calls w' = solver_calls w ++ [(fresh (dom (nets w)), base_options)] /\
    (forall r n, nets w !! r = Some n -> nets w' !! r = Some n).
Proof.
  intros Hvalid Hsolve.
  rewrite (generate_samples_base_not_converged self w net0 Hvalid failed Hsolve).
  eexists. split; [reflexivity |].
  cbn [nets rng_calls solver_calls stdout files]. split_and!; try reflexivity.
  intros r n Hr.
  rewrite !lookup_insert_ne by (symmetry; eapply fresh_ref_differs; eassumption).
  exact Hr.
Qed.

(** X11: when the base case converges, [generate_samples] ends by writing
    [data.pkl], and nothing else: the file holds the whole sample list of
    the object, the samples it had before the call first, whatever the
    file held before; every other file is as it was. *)
Theorem generate_samples_dumps self w net0 base :
  nets w !! base_net self = Some net0 ->
  pp_runpp base_options net0 = (base, true) ->
  exists self' w' new,
    generate_samples self w = Ok self' w' /\
    samples self' = samples self ++ new /\
    files w' !! "data.pkl"%string = Some (samples self') /\
    (forall name, name <> "data.pkl"%string -> files w' !! name = files w !! name).
Proof.
  intros Hvalid Hsolve.
  destruct (generate_samples_converged self w net0 Hvalid base Hsolve)
    as (self' & w' & locs & Hrun & Hs & _ & _ & _ & _ & _ & _ & Hfiles).
  exists self', w'. eexists. split; [exact Hrun |]. split; [exact Hs |].
  rewrite Hfiles. split.
  - apply lookup_insert_eq.
  - intros name Hname. now apply lookup_insert_ne.
Qed.

(** X12: with a sample count of zero or less and a converging base case,
    [generate_samples] makes no draw: the dataset object is as before,
    the base solve is the only solver call, no random number is drawn and
    nothing is printed; [data.pkl] is still written, with the samples the
    object already had. *)
Theorem generate_samples_no_draws self w net0 base :
  nets w !! base_net self = Some net0 ->
  pp_runpp base_options net0 = (base, true) ->
  num_samples self <= 0 ->
  exists w',
    generate_samples self w = Ok self w' /\
    solver_calls w' = solver_calls w ++ [(fresh (dom (nets w)), base_options)] /\
    rng_calls w' = rng_calls w /\
    stdout w' = stdout w /\
    files w' = <["data.pkl"%string := samples self]> (files w).
Proof.
  intros Hvalid Hsolve Hn.
  rewrite (generate_samples_steps self w net0 base Hvalid Hsolve).
  rewrite PyListFacts.range_empty by lia. cbn [for_each]. unfold ret.
  eexists. split; [reflexivity |].
  cbn [nets rng_calls solver_calls stdout files]. split_and!; reflexivity.
Qed.

(** The whole run on a converging base case, with the random generator. *)
Lemma generate_samples_run self w net0 base :
  nets w !! base_net self = Some net0 ->
  pp_runpp base_options net0 = (base, true) ->
  exists self' w' locs,
    generate_samples self w = Ok self' w' /\
    samples self' = samples self
      ++ retained self net0 base (res_bus_vm_pu base) (res_bus_va_degree base)
           (rng_calls w) (PyList.range 0 (num_samples self)) /\
    same_config self self' /\
    solver_calls w' = solver_calls w
      ++ (fresh (dom (nets w)), base_options)
         :: combine locs
              (draw_calls self (res_bus_vm_pu base) (res_bus_va_degree base)
                 (rng_calls w) (PyList.range 0 (num_samples self))) /\
    length locs = length (PyList.range 0 (num_samples self)) /\
    rng_calls w' = (rng_calls w + 2 * length (PyList.range 0 (num_samples self)))%nat /\
    (forall r n, nets w !! r = Some n -> nets w' !! r = Some n).
Proof.
  intros Hvalid Hsolve.
  rewrite (generate_samples_steps self w net0 base Hvalid Hsolve).
  set (net := fresh (dom (nets w))).
  assert (Hkeep : forall r n, nets w !! r = Some n ->
            <[net := base]> (<[net := net0]> (nets w)) !! r = Some n).
  { intros r n Hr.
    rewrite !lookup_insert_ne by (symmetry; eapply fresh_ref_differs; eassumption).
    exact Hr. }
  match goal with |- context [for_each ?l _ self ?w1] =>
    destruct (for_each_draws net (res_bus_vm_pu base) (res_bus_va_degree base)
                net0 base l self w1)
      as (self' & w' & locs & Hrun & Hs & Hc & _ & Hcalls & Hlen & _ & Hpres & Hrng & _)
  end.
  { cbn [nets]. now apply Hkeep. }
  { cbn [nets]. apply lookup_insert_eq. }
  cbn [nets rng_calls solver_calls stdout files] in *.
  rewrite Hrun. do 3 eexists. split; [reflexivity |].
  cbn [nets rng_calls solver_calls stdout files].
  split_and!; try eassumption.
  - rewrite Hcalls. now rewrite <- app_assoc.
  - intros r n Hr. apply Hpres, Hkeep, Hr.
Qed.

Lemma nth_error_combine {A B} (la : list A) (lb : list B) k b :
  length la = length lb -> nth_error lb k = Some b ->
  exists a, nth_error (combine la lb) k = Some (a, b).
Proof.
  revert lb k. induction la as [| x la IH]; intros [| y lb] k Hlen Hk;
    cbn in Hlen; try lia.
  - destruct k; discriminate.
  - destruct k as [| k]; cbn in *.
    + injection Hk as <-. now exists x.
    + apply IH; [lia | exact Hk].
Qed.

Lemma nth_error_draw_calls self v_nominal theta_nominal l : forall c k,
  (k < length l)%nat ->
  nth_error (draw_calls self v_nominal theta_nominal c l) k
  = Some (draw_options self v_nominal theta_nominal (c + 2 * k)).
Proof.
  induction l as [| i l IH]; intros c k Hk; cbn in Hk; [lia |].
  destruct k as [| k]; cbn [draw_calls nth_error].
  - now rewrite Nat.mul_0_r, Nat.add_0_r.
  - rewrite IH by lia. do 2 f_equal. lia.
Qed.

(** X13: the random generator is used the same way whatever the solver
    answers: with a converging base case, [generate_samples] draws exactly
    two arrays per sample, and the solver call of draw [k] (from 0) is
    given the base solution plus the arrays of generator calls [2k] and
    [2k + 1] counted from the start of the run, with the object's
    iteration cap and tolerance. *)
Theorem generate_samples_draw_numbers self w net0 base :
  nets w !! base_net self = Some net0 ->
  pp_runpp base_options net0 = (base, true) ->
  exists self' w' base_call draw_solves,
    generate_samples self w = Ok self' w' /\
    solver_calls w' = solver_calls w ++ base_call :: draw_solves /\
    length draw_solves = Z.to_nat (num_samples self) /\
    rng_calls w' = (rng_calls w + 2 * Z.to_nat (num_samples self))%nat /\
    forall k, (k < Z.to_nat (num_samples self))%nat ->
      exists r,
        nth_error draw_solves k
        = Some (r,
                mkOptions (Some "auto"%string)
                  (Some (add (res_bus_vm_pu base)
                           (List.map (random_draw (rng_calls w + 2 * k)
                                        (- v_perturb self) (v_perturb self))
                                     (seq 0 (length (res_bus_vm_pu base))))))
                  (Some (add (res_bus_va_degree base)
                           (List.map (random_draw (S (rng_calls w + 2 * k))
                                        (- theta_perturb self) (theta_perturb self))
                                     (seq 0 (length (res_bus_va_degree base))))))
                  (Some (ds_max_iteration self)) (Some (ds_tolerance_mva self))).
Proof.
  intros Hvalid Hsolve.
  destruct (generate_samples_run self w net0 base Hvalid Hsolve)
    as (self' & w' & locs & Hrun & _ & _ & Hcalls & Hlen & Hrng & _).
  rewrite PyListFacts.length_range, Z.sub_0_r in *.
  exists self', w'. do 2 eexists.
  split; [exact Hrun |]. split; [exact Hcalls |].
  pose proof (length_draw_calls self (res_bus_vm_pu base) (res_bus_va_degree base)
                (PyList.range 0 (num_samples self)) (rng_calls w)) as Hlen'.
  rewrite PyListFacts.length_range, Z.sub_0_r in Hlen'.
  split_and!.
  - rewrite length_combine. lia.
  - exact Hrng.
  - intros k Hk.
    apply (nth_error_combine locs); [lia |].
    apply nth_error_draw_calls. rewrite PyListFacts.length_range. lia.
Qed.

(** X14: the constructor copies its argument first: for a reference that
    names a network it returns; the object's [base_net] is a reference
    that did not exist before, different from the argument, and after the
    run both it and the argument still name the network as it was handed
    over, unsolved; the other fields are the arguments given. *)
Theorem PowerFlowDataset_init_copies base_network n_samples max_it tol v_p theta_p
    w net0 :
  nets w !! base_network = Some net0 ->
  exists self' w',
    PowerFlowDataset_init base_network n_samples max_it tol v_p theta_p w
      = Ok self' w' /\
    nets w !! base_net self' = None /\
    base_net self' <> base_network /\
    nets w' !! base_net self' = Some net0 /\
    nets w' !! base_network = Some net0 /\
    same_config (mkDataset (base_net self') n_samples [] max_it tol v_p theta_p) self'.
Proof.
  intros Hvalid. unfold PowerFlowDataset_init, bind, deepcopy. rewrite Hvalid.
  set (b := fresh (dom (nets w))).
  match goal with |- context [generate_samples ?s ?wd] =>
    set (self0 := s); set (w1 := wd) end.
  assert (Hb : nets w1 !! base_net self0 = Some net0)
    by (unfold w1, self0; cbn [nets base_net]; apply lookup_insert_eq).
  assert (Hne : b <> base_network)
    by (symmetry; eapply fresh_ref_differs; exact Hvalid).
  assert (Harg : nets w1 !! base_network = Some net0)
    by (unfold w1; cbn [nets]; rewrite lookup_insert_ne by exact Hne; exact Hvalid).
  destruct (pp_runpp base_options net0) as [base ok] eqn:Hbase. destruct ok.
  - destruct (generate_samples_run self0 w1 net0 base Hb Hbase)
      as (self' & w' & locs & Hrun & _ & Hc & _ & _ & _ & Hpres).
    exists self', w'. split; [exact Hrun |].
    assert (Hbn : base_net self' = b) by (destruct Hc as (<- & _); reflexivity).
    rewrite Hbn. split_and!.
    + apply fresh_ref_new.
    + exact Hne.
    + now apply Hpres.
    + now apply Hpres.
    + exact Hc.
  - rewrite (generate_samples_base_not_converged self0 w1 net0 Hb base Hbase).
    do 2 eexists. split; [reflexivity |].
    cbn [nets base_net self0]. unfold self0. cbn [base_net]. split_and!.
    + apply fresh_ref_new.
    + exact Hne.
    + rewrite !lookup_insert_ne
        by (symmetry; eapply fresh_ref_differs; exact Hb).
      exact Hb.
    + rewrite !lookup_insert_ne
        by (symmetry; eapply fresh_ref_differs; exact Harg).
      exact Harg.
    + apply same_config_refl.
Qed.

Lemma length_retained self net0 base v_nominal theta_nominal l : forall c,
  length (retained self net0 base v_nominal theta_nominal c l)
  = length (List.filter (fun o => snd (pp_runpp o net0))
              (draw_calls self v_nominal theta_nominal c l)).
Proof.
  induction l as [| i l IH]; intros c; [reflexivity |].
  cbn [retained draw_calls List.filter]. rewrite length_app, IH.
  destruct (snd (pp_runpp _ net0)); reflexivity.
Qed.

Lemma filter_nothing {A} (f : A -> bool) (l : list A) :
  (forall x, In x l -> f x = false) -> List.filter f l = [].
Proof.
  induction l as [| x l IH]; intros H; [reflexivity |].
  cbn [List.filter]. rewrite (H x) by now left.
  apply IH. intros y Hy. apply H. now right.
Qed.

Lemma draw_calls_guess self v_nominal theta_nominal l : forall c,
  Forall (fun o => init_vm_pu o <> None) (draw_calls self v_nominal theta_nominal c l).
Proof.
  induction l as [| i l IH]; intros c; cbn [draw_calls]; constructor.
  - discriminate.
  - apply IH.
Qed.

(** X15: [__len__] after [generate_samples] on a converging base case: the
    length has grown by the number of draws whose solve converged, at most
    [num_samples] and none for a negative count; by all of them if every
    perturbed solve converges, and not at all if none does. *)
Theorem len_after_generate_samples self w net0 base :
  nets w !! base_net self = Some net0 ->
  pp_runpp base_options net0 = (base, true) ->
  exists self' w',
    generate_samples self w = Ok self' w' /\
    len self' = len self
      + PyList.len (List.filter (fun o => snd (pp_runpp o net0))
                      (draw_calls self (res_bus_vm_pu base) (res_bus_va_degree base)
                         (rng_calls w) (PyList.range 0 (num_samples self)))) /\
    len self <= len self' <= len self + Z.max 0 (num_samples self) /\
    ((forall o, init_vm_pu o <> None -> snd (pp_runpp o net0) = true) ->
     len self' = len self + Z.max 0 (num_samples self)) /\
    ((forall o, init_vm_pu o <> None -> snd (pp_runpp o net0) = false) ->
     len self' = len self).
Proof.
  intros Hvalid Hsolve.
  destruct (generate_samples_run self w net0 base Hvalid Hsolve)
    as (self' & w' & locs & Hrun & Hs & _).
  exists self', w'. split; [exact Hrun |].
  set (calls := draw_calls self (res_bus_vm_pu base) (res_bus_va_degree base)
                  (rng_calls w) (PyList.range 0 (num_samples self))) in *.
  assert (Hlen : len self' = len self
            + PyList.len (List.filter (fun o => snd (pp_runpp o net0)) calls)).
  { unfold len, PyList.len. rewrite Hs, length_app, length_retained. fold calls. lia. }
  assert (Hcalls : PyList.len calls = Z.max 0 (num_samples self)).
  { unfold calls, PyList.len.
    rewrite length_draw_calls, PyListFacts.length_range. lia. }
  assert (Hguess : Forall (fun o => init_vm_pu o <> None) calls)
    by apply draw_calls_guess.
  split; [exact Hlen |].
  pose proof (filter_length_le (fun o => snd (pp_runpp o net0)) calls) as Hle.
  split_and!.
  - unfold PyList.len in *. lia.
  - unfold PyList.len in *. lia.
  - intros Hall. rewrite Hlen, <- Hcalls. do 2 f_equal.
    apply forallb_filter_id. apply forallb_forall. intros o Ho.
    rewrite List.Forall_forall in Hguess. now apply Hall, Hguess.
  - intros Hnone. rewrite Hlen.
    replace (List.filter (fun o => snd (pp_runpp o net0)) calls) with (@nil runpp_options);
      [unfold PyList.len; cbn; lia |].
    symmetry. apply filter_nothing. intros o Ho.
    rewrite List.Forall_forall in Hguess. now apply Hnone, Hguess.
Qed.

(** The row of a record made by [generate_samples]. *)
Lemma flatten_sample_record base solved v_ill theta_ill :
  exists row,
    flatten_sample (sample_record base solved v_ill theta_ill) = Flat row /\
    is_row_of (sample_record base solved v_ill theta_ill) row /\
    row
    = List.map real (ppc_Sbus solved) ++ List.map imag (ppc_Sbus solved)
      ++ flatten (List.map (List.map real) (ppc_Ybus solved))
      ++ flatten (List.map (List.map imag) (ppc_Ybus solved))
      ++ v_ill ++ theta_ill
      ++ res_bus_vm_pu solved ++ res_bus_va_degree solved
      ++ List.map real (compute_residual (res_bus_vm_pu solved)
                          (res_bus_va_degree solved) (ppc_Ybus solved) (ppc_Sbus solved))
      ++ List.map imag (compute_residual (res_bus_vm_pu solved)
                          (res_bus_va_degree solved) (ppc_Ybus solved) (ppc_Sbus solved))
      ++ [IZR (ppc_iterations base)].
Proof.
  set (rec := sample_record base solved v_ill theta_ill).
  assert (Hlook :
    rec !! "P"%string = Some (VArray (List.map real (ppc_Sbus solved))) /\
    rec !! "Q"%string = Some (VArray (List.map imag (ppc_Sbus solved))) /\
    rec !! "G"%string
      = Some (VArray (flatten (List.map (List.map real) (ppc_Ybus solved)))) /\
    rec !! "B"%string
      = Some (VArray (flatten (List.map (List.map imag) (ppc_Ybus solved))))).
  { unfold rec, sample_record, py_dict. cbn [fold_left fst snd].
    split_and!;
      repeat (rewrite lookup_insert_ne by discriminate);
      apply lookup_insert_eq. }
  destruct Hlook as (HP & HQ & HG & HB).
  destruct (sample_record_fields base solved v_ill theta_ill)
    as (Hit & Hv & Ht & Hvp & Hpp & Hre & Him).
  fold rec in Hit, Hv, Ht, Hvp, Hpp, Hre, Him.
  eexists. split; [| split; [| reflexivity]].
  - unfold flatten_sample, concatenated_keys. cbn [get_all].
    rewrite HP, HQ, HG, HB, Hv, Ht, Hvp, Hpp, Hre, Him.
    cbn [np_concatenate concat_arrays option_map]. rewrite Hit.
    unfold np_append. rewrite app_nil_r, <- !app_assoc. reflexivity.
  - unfold is_row_of. do 11 eexists.
    split_and!; try eassumption. reflexivity.
Qed.

Lemma retained_are_records self net0 base v_nominal theta_nominal l : forall c,
  Forall (fun rec => exists c' solved,
            pp_runpp (draw_options self v_nominal theta_nominal c') net0 = (solved, true) /\
            rec = sample_record base solved (v_ill_of self v_nominal c')
                    (theta_ill_of self theta_nominal c'))
         (retained self net0 base v_nominal theta_nominal c l).
Proof.
  induction l as [| i l IH]; intros c; [constructor |].
  cbn [retained]. apply Forall_app. split; [| apply IH].
  destruct (pp_runpp (draw_options self v_nominal theta_nominal c) net0)
    as [solved ok] eqn:Hsolve.
  cbn [fst snd]. destruct ok; constructor; [| constructor].
  exists c, solved. split; [exact Hsolve | reflexivity].
Qed.

Lemma flatten_samples_all (Q : list R -> Prop) (l : list (gmap string value)) :
  Forall (fun d => exists row, flatten_sample d = Flat row /\ is_row_of d row /\ Q row) l ->
  forall acc, exists rows,
    flatten_samples l acc = Flat (acc ++ rows) /\
    Forall2 is_row_of l rows /\ Forall Q rows.
Proof.
  induction 1 as [| d l (row & Hrow & His & HQ) _ IH]; intros acc.
  - exists []. rewrite app_nil_r. split_and!; [reflexivity | constructor | constructor].
  - cbn [flatten_samples]. rewrite Hrow.
    destruct (IH (acc ++ [row])) as (rows & Hrows & Hall & HallQ).
    exists (row :: rows). rewrite Hrows, <- app_assoc.
    split_and!; [reflexivity | now constructor | now constructor].
Qed.

(** X16: the flattening loop of [create_grid_dataset] never raises on the
    records of a dataset made by the constructor: it returns one row per
    record, in order, each row the record's ten arrays one after the
    other followed by its iteration count. *)
Theorem flatten_samples_of_dataset base_network n_samples max_it tol v_p theta_p
    w net0 :
  nets w !! base_network = Some net0 ->
  exists self' w' rows,
    PowerFlowDataset_init base_network n_samples max_it tol v_p theta_p w
      = Ok self' w' /\
    flatten_samples (samples self') [] = Flat rows /\
    Forall2 is_row_of (samples self') rows.
Proof.
  intros Hvalid. unfold PowerFlowDataset_init, bind, deepcopy. rewrite Hvalid.
  match goal with |- context [generate_samples ?s ?wd] =>
    set (self0 := s); set (w1 := wd) end.
  assert (Hb : nets w1 !! base_net self0 = Some net0)
    by (unfold w1, self0; cbn [nets base_net]; apply lookup_insert_eq).
  destruct (pp_runpp base_options net0) as [base ok] eqn:Hbase. destruct ok.
  - destruct (generate_samples_run self0 w1 net0 base Hb Hbase)
      as (self' & w' & locs & Hrun & Hs & _).
    unfold self0 at 1 in Hs. cbn [samples app] in Hs.
    destruct (flatten_samples_all (fun _ => True) (samples self')) with (acc := @nil (list R))
      as (rows & Hrows & Hall & _).
    { rewrite Hs.
      eapply List.Forall_impl; [| apply retained_are_records]. cbn beta.
      intros rec (c' & solved & _ & ->).
      destruct (flatten_sample_record base solved (v_ill_of self0 (res_bus_vm_pu base) c')
                  (theta_ill_of self0 (res_bus_va_degree base) c'))
        as (row & Hrow & His & _).
      exists row. auto. }
    exists self', w', rows. auto.
  - rewrite (generate_samples_base_not_converged self0 w1 net0 Hb base Hbase).
    do 2 eexists. exists []. split; [reflexivity |].
    unfold self0. cbn [samples flatten_samples]. split; [reflexivity | constructor].
Qed.

Lemma length_flatten_square {A B} (f : A -> B) (M : list (list A)) n :
  length M = n -> Forall (fun row => length row = n) M ->
  length (flatten (List.map (List.map f) M)) = (n * n)%nat.
Proof.
  intros Hlen Hrows. unfold flatten. rewrite <- Hlen at 1. clear Hlen.
  induction Hrows as [| row M Hrow _ IH]; [reflexivity |].
  cbn [List.map concat length]. rewrite length_app, length_map, Hrow, IH. lia.
Qed.

Lemma length_perturbed nominal (f : nat -> R) :
  length (add nominal (List.map f (seq 0 (length nominal)))) = length nominal.
Proof.
  unfold add. rewrite ResidualFacts.length_zip_with_eq; [reflexivity |].
  now rewrite length_map, length_seq.
Qed.

(** X17: when every converged solve leaves a solution, an admittance
    matrix and an injection vector of [n >= 1] buses, every record that
    [generate_samples] appends flattens to a row of [2 n^2 + 8 n - 1]
    entries, so the rows of all samples have one length. *)
Theorem flattened_rows_length n self w net0 base :
  (1 <= n)%nat ->
  solves_in_shape n net0 ->
  nets w !! base_net self = Some net0 ->
  pp_runpp base_options net0 = (base, true) ->
  exists self' w' new rows,
    generate_samples self w = Ok self' w' /\
    samples self' = samples self ++ new /\
    flatten_samples new [] = Flat rows /\
    length rows = length new /\
    Forall (fun row => length row = row_length n) rows.
Proof.
  intros Hn Hshape Hvalid Hbase.
  destruct (generate_samples_run self w net0 base Hvalid Hbase)
    as (self' & w' & locs & Hrun & Hs & _).
  assert (Hbase_shape : well_shaped n (res_bus_vm_pu base) (res_bus_va_degree base)
                          (ppc_Ybus base) (ppc_Sbus base))
    by (apply (Hshape base_options base Hbase); discriminate).
  destruct Hbase_shape as (Hvn & Htn & _).
  match type of Hs with _ = _ ++ ?r => set (new := r) in * end.
  destruct (flatten_samples_all (fun row => length row = row_length n) new)
    with (acc := @nil (list R)) as (rows & Hrows & Hall & Hlens).
  { eapply List.Forall_impl; [| apply retained_are_records]. cbn beta.
    intros rec (c' & solved & Hsolve & ->).
    destruct (flatten_sample_record base solved
                (v_ill_of self (res_bus_vm_pu base) c')
                (theta_ill_of self (res_bus_va_degree base) c'))
      as (row & Hrow & His & Heq).
    exists row. split; [exact Hrow |]. split; [exact His |].
    assert (Hv : length (v_ill_of self (res_bus_vm_pu base) c') = n)
      by (unfold v_ill_of; now rewrite length_perturbed).
    assert (Ht : length (theta_ill_of self (res_bus_va_degree base) c') = n)
      by (unfold theta_ill_of; now rewrite length_perturbed).
    assert (Hsh : well_shaped n (res_bus_vm_pu solved) (res_bus_va_degree solved)
                    (ppc_Ybus solved) (ppc_Sbus solved)).
    { apply (Hshape _ solved Hsolve); cbn; intros x [= <-]; assumption. }
    assert (Hres : length (compute_residual (res_bus_vm_pu solved)
                             (res_bus_va_degree solved) (ppc_Ybus solved)
                             (ppc_Sbus solved)) = (n - 1)%nat).
    { rewrite (ResidualExtras.compute_residual_by_bus n _ _ _ _ Hsh).
      unfold mismatch_spec. rewrite length_map, length_seq.
      destruct Hsh as (-> & _). reflexivity. }
    destruct Hsh as (Hm & Ha & HS & HY & Hrows').
    rewrite Heq. rewrite !length_app, !length_map.
    rewrite !(length_flatten_square _ _ n HY Hrows').
    rewrite Hv, Ht, Hm, Ha, HS, Hres. cbn [length]. unfold row_length. lia. }
  exists self', w', new, rows.
  split; [exact Hrun |]. split; [exact Hs |]. split; [exact Hrows |].
  split; [| exact Hlens].
  symmetry. eapply Forall2_length. exact Hall.
Qed.

End WithSolver.

Lemma generate_samples_base_failure_witness :
  exists w',
    @generate_samples Stalled.pandapower TwoBus.lowest TwoBus.dataset0 Stalled.world0
    = Ok TwoBus.dataset0 w' /\
    stdout w' = [] /\
    files w' = ∅.
Proof.
  destruct (@generate_samples_base_failure Stalled.pandapower TwoBus.lowest
              TwoBus.dataset0 Stalled.world0 TwoBus.unsolved TwoBus.unsolved
              eq_refl eq_refl)
    as (w' & Hrun & Hout & _ & Hfiles & _).
  exists w'. split; [exact Hrun |]. split; [exact Hout | exact Hfiles].
Defined.

Lemma generate_samples_dumps_witness :
  exists self' w' new,
    @generate_samples (TwoBus.pandapower true) TwoBus.lowest
      TwoBus.dataset0 (TwoBus.world0 true) = Ok self' w' /\
    samples self' = samples TwoBus.dataset0 ++ new /\
    files w' !! "data.pkl"%string = Some (samples self') /\
    (forall name, name <> "data.pkl"%string ->
       files w' !! name = files (TwoBus.world0 true) !! name).
Proof.
  apply (@generate_samples_dumps (TwoBus.pandapower true) TwoBus.lowest
           TwoBus.dataset0 (TwoBus.world0 true) TwoBus.unsolved TwoBus.solved_base);
    reflexivity.
Defined.

Lemma generate_samples_no_draws_witness :
  exists w',
    @generate_samples (TwoBus.pandapower true) TwoBus.lowest
      Stalled.no_samples (TwoBus.world0 true) = Ok Stalled.no_samples w' /\
    stdout w' = [] /\
    files w' = {[ "data.pkl"%string := [] ]}.
Proof.
  destruct (@generate_samples_no_draws (TwoBus.pandapower true) TwoBus.lowest
              Stalled.no_samples (TwoBus.world0 true) TwoBus.unsolved
              TwoBus.solved_base eq_refl eq_refl)
    as (w' & Hrun & _ & _ & Hout & Hfiles).
  - cbn. lia.
  - exists w'. split; [exact Hrun |]. split; [exact Hout | exact Hfiles].
Defined.

Lemma generate_samples_draw_numbers_witness :
  exists self' w' base_call draw_solves,
    @generate_samples (TwoBus.pandapower true) TwoBus.lowest
      TwoBus.dataset0 (TwoBus.world0 true) = Ok self' w' /\
    solver_calls w' = base_call :: draw_solves /\
    length draw_solves = 3%nat /\
    rng_calls w' = 6%nat.
Proof.
  destruct (@generate_samples_draw_numbers (TwoBus.pandapower true) TwoBus.lowest
              TwoBus.dataset0 (TwoBus.world0 true) TwoBus.unsolved TwoBus.solved_base
              eq_refl eq_refl)
    as (self' & w' & base_call & draw_solves & Hrun & Hcalls & Hlen & Hrng & _).
  exists self', w', base_call, draw_solves.
  split; [exact Hrun |]. split; [exact Hcalls |]. split; [exact Hlen | exact Hrng].
Defined.

Lemma PowerFlowDataset_init_copies_witness :
  exists self' w',
    @PowerFlowDataset_init (TwoBus.pandapower true) TwoBus.lowest
      1%positive 3 50 (1 / 100000)%R (15 / 100)%R 30%R (TwoBus.world0 true)
      = Ok self' w' /\
    base_net self' <> 1%positive /\
    nets w' !! base_net self' = Some TwoBus.unsolved /\
    nets w' !! 1%positive = Some TwoBus.unsolved.
Proof.
  destruct (@PowerFlowDataset_init_copies (TwoBus.pandapower true) TwoBus.lowest
              1%positive 3 50 (1 / 100000)%R (15 / 100)%R 30%R (TwoBus.world0 true)
              TwoBus.unsolved eq_refl)
    as (self' & w' & Hrun & _ & Hne & Hcopy & Harg & _).
  exists self', w'. split; [exact Hrun |]. split; [exact Hne |].
  split; [exact Hcopy | exact Harg].
Defined.

Lemma len_after_generate_samples_witness :
  exists self' w',
    @generate_samples (TwoBus.pandapower true) TwoBus.lowest
      TwoBus.dataset0 (TwoBus.world0 true) = Ok self' w' /\
    len self' = 3.
Proof.
  destruct (@len_after_generate_samples (TwoBus.pandapower true) TwoBus.lowest
              TwoBus.dataset0 (TwoBus.world0 true) TwoBus.unsolved TwoBus.solved_base
              eq_refl eq_refl)
    as (self' & w' & Hrun & _ & _ & Hall & _).
  exists self', w'. split; [exact Hrun |].
  apply Hall. intros o Ho. cbn. unfold TwoBus.solve.
  destruct (init_vm_pu o); [| contradiction].
  now destruct (init_va_degree o).
Defined.

Lemma flatten_samples_of_dataset_witness :
  exists self' w' rows,
    @PowerFlowDataset_init (TwoBus.pandapower true) TwoBus.lowest
      1%positive 3 50 (1 / 100000)%R (15 / 100)%R 30%R (TwoBus.world0 true)
      = Ok self' w' /\
    flatten_samples (samples self') [] = Flat rows /\
    Forall2 is_row_of (samples self') rows.
Proof.
  apply (@flatten_samples_of_dataset (TwoBus.pandapower true) TwoBus.lowest
           1%positive 3 50 (1 / 100000)%R (15 / 100)%R 30%R (TwoBus.world0 true)
           TwoBus.unsolved).
  reflexivity.
Defined.

Lemma two_bus_solves_in_shape :
  @solves_in_shape (TwoBus.pandapower true) 2 TwoBus.unsolved.
Proof.
  intros o solved Hsolve Hv Ht. cbn in Hsolve. unfold TwoBus.solve in Hsolve.
  cbn [res_bus_vm_pu res_bus_va_degree ppc_Ybus ppc_Sbus TwoBus.pandapower].
  destruct (init_vm_pu o) as [v |] eqn:Ev; [destruct (init_va_degree o) as [t |] eqn:Et |];
    injection Hsolve as <-; cbn [TwoBus.vm_pu TwoBus.va_degree];
    unfold well_shaped, TwoBus.Ybus, TwoBus.Sbus;
    split_and!; auto; repeat constructor.
Defined.

Lemma flattened_rows_length_witness :
  exists self' w' new rows,
    @generate_samples (TwoBus.pandapower true) TwoBus.lowest
      TwoBus.dataset0 (TwoBus.world0 true) = Ok self' w' /\
    samples self' = samples TwoBus.dataset0 ++ new /\
    flatten_samples new [] = Flat rows /\
    length rows = length new /\
    Forall (fun row => length row = 23%nat) rows.
Proof.
  apply (@flattened_rows_length (TwoBus.pandapower true) TwoBus.lowest 2
           TwoBus.dataset0 (TwoBus.world0 true) TwoBus.unsolved TwoBus.solved_base).
  - lia.
  - exact two_bus_solves_in_shape.
  - reflexivity.
  - reflexivity.
Defined.

End SamplerExtras.
